(** * Flight-log GPS parser ([smart_gps_parser_v2.py]): shallow embedding

    The parser reads a binary flight log, frames it into records that start
    with the byte [0x7E], decodes two known record layouts, scans the other
    records for plausible coordinate pairs, and exports a point table and a
    trajectory.  Python floats are IEEE binary64 numbers: they are modelled by
    Rocq's primitive floats, whose comparisons and arithmetic are the same
    operations.  Python integers are [Z]; byte strings are [list byte]. *)

From Stdlib.Strings Require Import Byte String Ascii.
From Stdlib Require Import ZArith List Bool Lia Floats Uint63 Permutation Sorted.
Import ListNotations.

Set Warnings "-inexact-float".

#[local] Open Scope Z_scope.

(** ** Python built-ins used by the parser *)

Module Py.

(** An uncaught exception, or the value the call returned. *)
Inductive exc (A : Type) : Type :=
| Ret (a : A)
| Raise.
Arguments Ret {A} a.
Arguments Raise {A}.

Definition bind {A B : Type} (m : exc A) (k : A -> exc B) : exc B :=
  match m with
  | Ret a => k a
  | Raise => Raise
  end.

(** [try: m except: d] *)
Definition catch {A : Type} (m : exc A) (d : A) : A :=
  match m with
  | Ret a => a
  | Raise => d
  end.

(** [l[a:b]] for [0 <= a]; the slice is clipped to the list as in Python. *)
Definition slice {A : Type} (l : list A) (a b : Z) : list A :=
  firstn (Z.to_nat (b - a)) (skipn (Z.to_nat a) l).

(** [l[-n:]] for [0 < n] *)
Definition lastn {A : Type} (n : nat) (l : list A) : list A :=
  skipn (length l - n) l.

(** [l[i]] for [0 <= i]; [None] is Python's [IndexError]. *)
Definition index {A : Type} (l : list A) (i : Z) : option A :=
  if i <? 0 then None else nth_error l (Z.to_nat i).

Definition len {A : Type} (l : list A) : Z := Z.of_nat (length l).

(** [range(start, stop)] *)
Definition range (start stop : Z) : list Z :=
  map (fun k => start + Z.of_nat k) (seq 0 (Z.to_nat (stop - start))).

(** [range(start, stop, -1)] *)
Definition range_down (start stop : Z) : list Z :=
  map (fun k => start - Z.of_nat k) (seq 0 (Z.to_nat (start - stop))).

(** [min(a, b)] on floats: [b] when [b < a], otherwise [a]. *)
Definition min (a b : float) : float := if (b <? a)%float then b else a.

(** [max(a, b)] on floats: [b] when [b > a], otherwise [a]. *)
Definition max (a b : float) : float := if (a <? b)%float then b else a.

(** Truth value of a float: false exactly for [0.0] and [-0.0]. *)
Definition truthy (x : float) : bool := negb (x =? 0)%float.

(** Truth value of [None] or a float. *)
Definition truthy_opt (x : option float) : bool :=
  match x with
  | Some v => truthy v
  | None => false
  end.

(** An integer as a float ([float(n)], exact below [2^53]). *)
Definition float_of_Z (n : Z) : float :=
  if n <? 0 then (- of_uint63 (Uint63.of_Z (- n)))%float
  else of_uint63 (Uint63.of_Z n).

(** [sorted(l)] on floats.  Python's sort is stable and compares with [<]
    only; on the floats the parser sorts (no NaN) every stable sort returns
    the same list, so the built-in is modelled by stable insertion. *)
Fixpoint insert (x : float) (l : list float) : list float :=
  match l with
  | [] => [x]
  | y :: t => if (x <? y)%float then x :: y :: t else y :: insert x t
  end.

Definition sorted (l : list float) : list float :=
  fold_left (fun acc x => insert x acc) l [].

End Py.

Import Py.

Notation "x <- m ;; k" := (Py.bind m (fun x => k))
  (at level 61, m at next level, right associativity).

(** ** [struct.unpack] *)

Definition byte_val (b : byte) : Z := Z.of_N (Byte.to_N b).

(** The little-endian unsigned value of a byte string. *)
Fixpoint le_uint (bs : list byte) : Z :=
  match bs with
  | [] => 0
  | b :: t => byte_val b + 256 * le_uint t
  end.

(** The binary32 number with bit pattern [w], as the binary64 number Python
    holds after unpacking (the conversion is exact). *)
Definition float32_of_bits (w : Z) : float :=
  let sign := Z.testbit w 31 in
  let e := Z.land (Z.shiftr w 23) 255 in
  let m := Z.land w 8388607 in
  let mag :=
    if e =? 255 then (if m =? 0 then infinity else nan)
    else if e =? 0 then Z.ldexp (float_of_Z m) (-149)
    else Z.ldexp (float_of_Z (m + 8388608)) (e - 150) in
  if sign then (- mag)%float else mag.

(** [struct.unpack('<I', bs)[0]]: raises unless [bs] has 4 bytes. *)
Definition unpack_I (bs : list byte) : exc Z :=
  if (length bs =? 4)%nat then Ret (le_uint bs) else Raise.

(** [struct.unpack('<f', bs)[0]]: raises unless [bs] has 4 bytes. *)
Definition unpack_f (bs : list byte) : exc float :=
  if (length bs =? 4)%nat then Ret (float32_of_bits (le_uint bs)) else Raise.

(** [bs.hex()] *)
Definition hex_digit (n : N) : ascii :=
  match n with
  | 0 => "0" | 1 => "1" | 2 => "2" | 3 => "3" | 4 => "4" | 5 => "5"
  | 6 => "6" | 7 => "7" | 8 => "8" | 9 => "9" | 10 => "a" | 11 => "b"
  | 12 => "c" | 13 => "d" | 14 => "e" | _ => "f"
  end%N%char.

Fixpoint hex (bs : list byte) : string :=
  match bs with
  | [] => EmptyString
  | b :: t =>
      String (hex_digit (Byte.to_N b / 16))
        (String (hex_digit (Byte.to_N b mod 16)) (hex t))
  end.

(** ** The [math] module

    [math.sqrt] is the correctly rounded square root and raises [ValueError]
    on a negative argument.  The other functions come from the platform's C
    library and are parameters of the development; [sin] and [cos] raise on an
    infinite argument and [**] raises on overflow. *)

Definition math_sqrt (x : float) : exc float :=
  let r := PrimFloat.sqrt x in
  if is_nan r && negb (is_nan x) then Raise else Ret r.

Class MathLib : Type := {
  radians : float -> float;
  sin : float -> exc float;
  cos : float -> exc float;
  atan2 : float -> float -> float;
  pow : float -> float -> exc float;
  (** the built-in [sum] over floats, starting from the integer 0 *)
  fsum : list float -> float
}.

(** ** Session state *)

Inductive Source : Type := KNOWN_TYPE | KNOWN_RELATIVE | DISCOVERED.

(** One GPS dictionary.  A key the dictionary does not hold is [None];
    [altitude] is also [None] when the key holds Python's [None]. *)
Record Gps : Type := {
  source : Source;
  type_hex : string;
  counter : option Z;
  latitude : option float;
  longitude : option float;
  altitude : option float;
  xyz : option (float * float * float);
  record_offset : Z;
  record_pos : option Z
}.

Record Telemetry : Type := {
  tel_counter : Z;
  param1 : float;
  param2 : float;
  param3 : float
}.

(** The fields of [SmartGPSParserV2] that parsing writes.  [region_refreshes]
    is instrumentation: it logs [len(coord_history)] at every assignment of
    [region_center], so that the refresh cadence can be stated. *)
Record Session : Type := {
  gps_known : list Gps;
  gps_discovered : list Gps;
  gps_all : list Gps;
  telemetry : list Telemetry;
  coord_history : list (float * float);
  region_center : option (float * float);
  region_refreshes : list Z
}.

Definition init_session : Session :=
  {| gps_known := []; gps_discovered := []; gps_all := []; telemetry := [];
     coord_history := []; region_center := None; region_refreshes := [] |}.

(** ** Record framer *)

Definition is_marker (b : byte) : bool := Byte.eqb b x7e.

(** [frame pos data] walks [data], whose first byte sits at file position
    [pos]: it returns the bytes before the first marker and the records from
    the first marker on, each with the position of its marker. *)
Fixpoint frame (pos : Z) (data : list byte) : list byte * list (Z * list byte) :=
  match data with
  | [] => ([], [])
  | b :: rest =>
      let '(pre, recs) := frame (pos + 1) rest in
      if is_marker b then ([], (pos, b :: pre) :: recs) else (b :: pre, recs)
  end.

Definition find_records (data : list byte) : list (Z * list byte) :=
  snd (frame 0 data).

(** [record[i] == b]; every use is guarded by a length test, so the index
    never raises. *)
Definition byte_at_is (record : list byte) (i : Z) (b : byte) : bool :=
  match index record i with
  | Some c => Byte.eqb c b
  | None => false
  end.

Fixpoint bytes_eqb (a b : list byte) : bool :=
  match a, b with
  | [], [] => true
  | x :: a', y :: b' => Byte.eqb x y && bytes_eqb a' b'
  | _, _ => false
  end.

Section Parser.

Context {M : MathLib}.

#[local] Open Scope float_scope.

(** ** Plausibility checks *)

Definition is_valid_coordinate (lat lon : option float) : bool :=
  match lat, lon with
  | Some lat, Some lon =>
      if negb ((-90 <=? lat) && (lat <=? 90)) then false
      else if negb ((-180 <=? lon) && (lon <=? 180)) then false
      else if (abs lat <? 0.01) && (abs lon <? 0.01) then false
      else true
  | _, _ => false
  end.

Definition calculate_distance (lat1 lon1 lat2 lon2 : float) : exc float :=
  let R := 6371 in
  let lat1_rad := radians lat1 in
  let lat2_rad := radians lat2 in
  let delta_lat := radians (lat2 - lat1) in
  let delta_lon := radians (lon2 - lon1) in
  s1 <- sin (delta_lat / 2) ;;
  p1 <- pow s1 2 ;;
  c1 <- cos lat1_rad ;;
  c2 <- cos lat2_rad ;;
  s2 <- sin (delta_lon / 2) ;;
  p2 <- pow s2 2 ;;
  let a := p1 + c1 * c2 * p2 in
  r1 <- math_sqrt a ;;
  r2 <- math_sqrt (1 - a) ;;
  let c := 2 * atan2 r1 r2 in
  Ret (R * c).

(** The loop of [is_geographically_coherent] over [recent_coords]. *)
Fixpoint min_distance_loop (recent : list (float * float)) (lat lon : float)
    (min_distance : float) : exc float :=
  match recent with
  | [] => Ret min_distance
  | (hist_lat, hist_lon) :: rest =>
      dist <- calculate_distance lat lon hist_lat hist_lon ;;
      min_distance_loop rest lat lon (Py.min min_distance dist)
  end.

Definition is_geographically_coherent (self : Session) (lat lon : float)
    (max_jump_km : float) : exc bool :=
  match coord_history self with
  | [] => Ret true
  | _ :: _ =>
      let recent_coords := lastn 10 (coord_history self) in
      min_distance <- min_distance_loop recent_coords lat lon infinity ;;
      Ret (min_distance <? max_jump_km)
  end.

Definition is_in_reasonable_region (self : Session) (lat lon : float) : exc bool :=
  match region_center self with
  | None => Ret true
  | Some (center_lat, center_lon) =>
      let max_distance := 200 in
      distance <- calculate_distance lat lon center_lat center_lon ;;
      Ret (distance <? max_distance)
  end.

(** [l[len(l)//2]] of a non-empty list *)
Definition middle (l : list float) : float :=
  nth (Z.to_nat (len l / 2)) l nan.

Definition update_region_center (self : Session) : Session :=
  match coord_history self with
  | [] => self
  | _ :: _ =>
      let lats := map fst (coord_history self) in
      let lons := map snd (coord_history self) in
      let lats_sorted := sorted lats in
      let lons_sorted := sorted lons in
      let median_lat := middle lats_sorted in
      let median_lon := middle lons_sorted in
      {| gps_known := gps_known self;
         gps_discovered := gps_discovered self;
         gps_all := gps_all self;
         telemetry := telemetry self;
         coord_history := coord_history self;
         region_center := Some (median_lat, median_lon);
         region_refreshes := region_refreshes self ++ [len (coord_history self)] |}
  end.

(** ** Heuristic locator *)

Record Candidate : Type := {
  c_offset : Z;
  c_latitude : float;
  c_longitude : float;
  c_altitude : option float
}.

(** The altitude that follows the pair at [offset], if it is plausible. *)
Definition candidate_altitude (record : list byte) (offset : Z) : option float :=
  if (offset + 12 <=? len record)%Z then
    catch
      (alt_candidate <- unpack_f (slice record (offset + 8) (offset + 12)) ;;
       Ret (if (-500 <? alt_candidate) && (alt_candidate <? 10000)
            then Some alt_candidate else None))
      None
  else None.

(** The body of the scan loop at one offset: [None] stands for [continue],
    also when the body raised. *)
Definition candidate_at (self : Session) (record : list byte) (offset : Z)
    : option Candidate :=
  catch
    (lat <- unpack_f (slice record offset (offset + 4)) ;;
     lon <- unpack_f (slice record (offset + 4) (offset + 8)) ;;
     if negb (is_valid_coordinate (Some lat) (Some lon)) then Ret None
     else if (abs lat <? 1.0) && (abs lon <? 1.0) then Ret None
     else
       coherent <- is_geographically_coherent self lat lon 50 ;;
       if negb coherent then Ret None
       else
         in_region <- (if (10 <? len (coord_history self))%Z
                       then is_in_reasonable_region self lat lon
                       else Ret true) ;;
         if negb in_region then Ret None
         else
           Ret (Some {| c_offset := offset;
                        c_latitude := lat;
                        c_longitude := lon;
                        c_altitude := candidate_altitude record offset |}))
    None.

Fixpoint scan (self : Session) (record : list byte) (offsets : list Z)
    : list Candidate :=
  match offsets with
  | [] => []
  | offset :: rest =>
      match candidate_at self record offset with
      | Some c => c :: scan self record rest
      | None => scan self record rest
      end
  end.

Definition find_gps_in_record (self : Session) (record : list byte) : list Candidate :=
  if (len record <? 12)%Z then []
  else scan self record (range 4 (Z.min (len record - 8) 80)).

(** ** Known-schema decoders *)

Definition parse_known_gps_absolute (record : list byte) : option Gps :=
  if (len record <? 36)%Z then None
  else if negb (byte_at_is record 1 x23 && byte_at_is record 2 x52) then None
  else
    catch
      (counter <- unpack_I (slice record 4 8) ;;
       latitude <- unpack_f (slice record 24 28) ;;
       longitude <- unpack_f (slice record 28 32) ;;
       altitude <- unpack_f (slice record 32 36) ;;
       if negb (is_valid_coordinate (Some latitude) (Some longitude)) then Ret None
       else
         Ret (Some {| source := KNOWN_TYPE;
                      type_hex := hex (slice record 1 4);
                      counter := Some counter;
                      latitude := Some latitude;
                      longitude := Some longitude;
                      altitude := Some altitude;
                      xyz := None;
                      record_offset := 24;
                      record_pos := None |}))
      None.

Definition parse_known_gps_relative (record : list byte) : option Gps :=
  if (len record <? 40)%Z then None
  else if negb (byte_at_is record 1 x27 && byte_at_is record 2 x52) then None
  else
    catch
      (counter <- unpack_I (slice record 4 8) ;;
       x <- unpack_f (slice record 20 24) ;;
       y <- unpack_f (slice record 24 28) ;;
       z <- unpack_f (slice record 28 32) ;;
       Ret (Some {| source := KNOWN_RELATIVE;
                    type_hex := hex (slice record 1 4);
                    counter := Some counter;
                    latitude := None;
                    longitude := None;
                    altitude := None;
                    xyz := Some (x, y, z);
                    record_offset := 20;
                    record_pos := None |}))
      None.

(** The bytes of [b'KS'] *)
Definition KS : list byte := [x4b; x53].

Definition parse_ks_telemetry (record : list byte) : option Telemetry :=
  if (len record <? 77)%Z then None
  else
    catch
      (if negb (bytes_eqb (slice record 1 3) KS) then Ret None
       else
         counter <- unpack_I (slice record 4 8) ;;
         p1 <- unpack_f (slice record 32 36) ;;
         p2 <- unpack_f (slice record 36 40) ;;
         p3 <- unpack_f (slice record 40 44) ;;
         Ret (Some {| tel_counter := counter;
                      param1 := p1; param2 := p2; param3 := p3 |}))
      None.

(** ** [parse_all]

    The console output and the per-type statistics of [parse_all] only
    feed prints and are left out. *)

(** The pair a GPS dictionary adds to the coordinate history. *)
Definition history_entry (lat lon : float) : float * float := (lat, lon).

Definition append_known_absolute (self : Session) (gps : Gps) (lat lon : float)
    : Session :=
  {| gps_known := gps_known self ++ [gps];
     gps_discovered := gps_discovered self;
     gps_all := gps_all self ++ [gps];
     telemetry := telemetry self;
     coord_history := coord_history self ++ [history_entry lat lon];
     region_center := region_center self;
     region_refreshes := region_refreshes self |}.

Definition append_known_relative (self : Session) (gps : Gps) : Session :=
  {| gps_known := gps_known self ++ [gps];
     gps_discovered := gps_discovered self;
     gps_all := gps_all self;
     telemetry := telemetry self;
     coord_history := coord_history self;
     region_center := region_center self;
     region_refreshes := region_refreshes self |}.

Definition append_telemetry (self : Session) (tel : Telemetry) : Session :=
  {| gps_known := gps_known self;
     gps_discovered := gps_discovered self;
     gps_all := gps_all self;
     telemetry := telemetry self ++ [tel];
     coord_history := coord_history self;
     region_center := region_center self;
     region_refreshes := region_refreshes self |}.

Definition append_discovered (self : Session) (gps : Gps) (lat lon : float)
    : Session :=
  {| gps_known := gps_known self;
     gps_discovered := gps_discovered self ++ [gps];
     gps_all := gps_all self ++ [gps];
     telemetry := telemetry self;
     coord_history := coord_history self ++ [history_entry lat lon];
     region_center := region_center self;
     region_refreshes := region_refreshes self |}.

(** Body of the first loop (known GPS types). *)
Definition phase1_step (self : Session) (item : Z * list byte) : Session :=
  let '(pos, record) := item in
  if (len record <? 4)%Z then self
  else if byte_at_is record 1 x23 && byte_at_is record 2 x52 then
    match parse_known_gps_absolute record with
    | Some gps =>
        match latitude gps, longitude gps with
        | Some lat, Some lon => append_known_absolute self gps lat lon
        | _, _ => self
        end
    | None => self
    end
  else if byte_at_is record 1 x27 && byte_at_is record 2 x52 then
    match parse_known_gps_relative record with
    | Some gps => append_known_relative self gps
    | None => self
    end
  else self.

(** The refresh between the two loops. *)
Definition after_phase1 (self : Session) : Session :=
  if (0 <? len (coord_history self))%Z then update_region_center self else self.

Definition discovered_gps (type_hex : string) (best : Candidate) (pos : Z) : Gps :=
  {| source := DISCOVERED;
     type_hex := type_hex;
     counter := None;
     latitude := Some (c_latitude best);
     longitude := Some (c_longitude best);
     altitude := c_altitude best;
     xyz := None;
     record_offset := c_offset best;
     record_pos := Some pos |}.

(** [type_hex.startswith(('2352', '2752'))] *)
Definition is_known_type (type_hex : string) : bool :=
  String.prefix "2352" type_hex || String.prefix "2752" type_hex.

(** Body of the second loop (search in the other record types). *)
Definition phase2_step (self : Session) (item : Z * list byte) : Session :=
  let '(pos, record) := item in
  if (len record <? 4)%Z then self
  else
    let type_hex := hex (slice record 1 (Z.min 4 (len record))) in
    if is_known_type type_hex then self
    else if bytes_eqb (slice record 1 3) KS then
      match parse_ks_telemetry record with
      | Some tel => append_telemetry self tel
      | None => self
      end
    else
      let gps_candidates := find_gps_in_record self record in
      match gps_candidates with
      | [] => self
      | best :: _ =>
          let self1 :=
            append_discovered self (discovered_gps type_hex best pos)
              (c_latitude best) (c_longitude best) in
          if (len (coord_history self1) mod 100 =? 0)%Z
          then update_region_center self1
          else self1
      end.

Definition phase1 (records : list (Z * list byte)) (self : Session) : Session :=
  fold_left phase1_step records self.

Definition phase2 (records : list (Z * list byte)) (self : Session) : Session :=
  fold_left phase2_step records self.

(** [SmartGPSParserV2(filename).parse_all()] on a file holding [data]. *)
Definition parse_all (data : list byte) : Session :=
  let records := find_records data in
  phase2 records (after_phase1 (phase1 records init_session)).

End Parser.

(** ** Trajectory post-processing and export *)

(** A trajectory point [(lon, lat, alt)]; [alt] may be Python's [None]. *)
Definition Coord : Type := float * float * option float.

Definition coord_lon (c : Coord) : float := fst (fst c).
Definition coord_lat (c : Coord) : float := snd (fst c).
Definition coord_alt (c : Coord) : option float := snd c.

(** What the scripts print, by message, with the values formatted into it. *)
Inductive Message : Type :=
| MsgExportCsv (filename : string)
| MsgExported (n : Z)
| MsgCreateKml (filename : string)
| MsgNoCoords
| MsgForcedSkip (n : Z)
| MsgSkipped (n : Z)
| MsgAltitudeRange (lo hi : float)
| MsgKmlCreated (n : Z)
| MsgStart (lat lon : float)
| MsgFinish (lat lon : float).

(** A cell of the point table: [None] and the empty string are both written
    as an empty cell. *)
Inductive Cell : Type :=
| CellStr (s : string)
| CellFloat (x : float)
| CellInt (n : Z)
| CellNone.

Record CsvRow : Type := {
  col_source : Cell;
  col_type_hex : Cell;
  col_latitude : Cell;
  col_longitude : Cell;
  col_altitude : Cell;
  col_counter : Cell;
  col_record_offset : Cell
}.

(** The numbers formatted into the trajectory document: the point count of
    its description, the path, and the start and finish markers. *)
Record KmlDoc : Type := {
  kml_count : Z;
  kml_path : list (float * float * float);
  kml_start : float * float * float;
  kml_finish : float * float * float
}.

Inductive Event : Type :=
| Print (m : Message)
| WriteCsv (filename : string) (rows : list CsvRow)
| WriteKml (filename : string) (doc : KmlDoc)
| Uncaught.

Section Exporters.

Context {M : MathLib}.

#[local] Open Scope float_scope.

(** [alt is None or alt <= 0] *)
Definition needs_altitude (alt : option float) : bool :=
  match alt with
  | None => true
  | Some a => a <=? 0
  end.

(** [coords[j][2] and coords[j][2] > 0] *)
Definition has_altitude (coords : list Coord) (j : Z) : bool :=
  match index coords j with
  | Some c =>
      truthy_opt (coord_alt c) &&
      match coord_alt c with Some a => 0 <? a | None => false end
  | None => false
  end.

(** A search loop of [interpolate_altitude]: the altitude at the first
    index of [js] that has one, [None] when the loop ends without [break]. *)
Fixpoint search_altitude (coords : list Coord) (js : list Z) : option float :=
  match js with
  | [] => None
  | j :: rest =>
      if has_altitude coords j
      then match index coords j with
           | Some c => coord_alt c
           | None => None
           end
      else search_altitude coords rest
  end.

Definition interpolate_point (coords : list Coord) (i : Z) (p : Coord) : Coord :=
  let '(lon, lat, alt) := p in
  if needs_altitude alt then
    let prev_alt := search_altitude coords (range_down (i - 1) (Z.max 0 (i - 20))) in
    let next_alt := search_altitude coords (range (i + 1) (Z.min (len coords) (i + 20))) in
    let alt' :=
      match prev_alt, next_alt with
      | Some p, Some n =>
          if truthy p && truthy n then (p + n) / 2
          else if truthy p then p
          else if truthy n then n
          else 100.0
      | Some p, None => if truthy p then p else 100.0
      | None, Some n => if truthy n then n else 100.0
      | None, None => 100.0
      end in
    (lon, lat, Some alt')
  else (lon, lat, alt).

(** [enumerate(l)], counting from [i] *)
Fixpoint enumerate_from {A : Type} (i : Z) (l : list A) : list (Z * A) :=
  match l with
  | [] => []
  | a :: t => (i, a) :: enumerate_from (i + 1)%Z t
  end.

Definition interpolate_altitude (coords : list Coord) : list Coord :=
  map (fun ip => interpolate_point coords (fst ip) (snd ip)) (enumerate_from 0 coords).

(** The mean [sum(l) / len(l)] *)
Definition mean (l : list float) : float := fsum l / float_of_Z (len l).

(** The scan of [find_real_start_point]: the first index within
    [max_distance] km of the centre. *)
Fixpoint first_near (center_lat center_lon max_distance : float)
    (points : list (Z * Coord)) : exc (option Z) :=
  match points with
  | [] => Ret None
  | (i, (lon, lat, alt)) :: rest =>
      dist <- calculate_distance lat lon center_lat center_lon ;;
      if dist <? max_distance then Ret (Some i)
      else first_near center_lat center_lon max_distance rest
  end.

Definition find_real_start_point (coords : list Coord) : exc Z :=
  if (len coords <? 20)%Z then Ret 0%Z
  else
    let middle_start := (len coords / 3)%Z in
    let middle_end := (2 * len coords / 3)%Z in
    let middle_coords := slice coords middle_start middle_end in
    match middle_coords with
    | [] => Ret 0%Z
    | _ :: _ =>
        let middle_lats := map coord_lat middle_coords in
        let middle_lons := map coord_lon middle_coords in
        let center_lat := mean middle_lats in
        let center_lon := mean middle_lons in
        let max_distance := 30 in
        found <- first_near center_lat center_lon max_distance (enumerate_from 0 coords) ;;
        match found with
        | Some i => Ret i
        | None => Ret 0%Z
        end
    end.

Definition opt_cell {A : Type} (f : A -> Cell) (x : option A) : Cell :=
  match x with
  | Some a => f a
  | None => CellStr ""
  end.

Definition source_name (s : Source) : string :=
  match s with
  | KNOWN_TYPE => "KNOWN_TYPE"
  | KNOWN_RELATIVE => "KNOWN_RELATIVE"
  | DISCOVERED => "DISCOVERED"
  end.

Definition csv_row (gps : Gps) : CsvRow :=
  {| col_source := CellStr (source_name (source gps));
     col_type_hex := CellStr (type_hex gps);
     col_latitude := opt_cell CellFloat (latitude gps);
     col_longitude := opt_cell CellFloat (longitude gps);
     col_altitude :=
       match altitude gps with
       | Some a => CellFloat a
       | None => match latitude gps with Some _ => CellNone | None => CellStr "" end
       end;
     col_counter := opt_cell CellInt (counter gps);
     col_record_offset := CellInt (record_offset gps) |}.

Definition export_all_gps_csv (self : Session) (filename : string) : list Event :=
  [Print (MsgExportCsv filename);
   WriteCsv filename (map csv_row (gps_all self));
   Print (MsgExported (len (gps_all self)))].

(** The comprehension that opens [export_trajectory_kml]. *)
Fixpoint trajectory_coords (gs : list Gps) : list Coord :=
  match gs with
  | [] => []
  | g :: rest =>
      match latitude g, longitude g with
      | Some lat, Some lon => (lon, lat, altitude g) :: trajectory_coords rest
      | _, _ => trajectory_coords rest
      end
  end.

(** The loop that counts the outliers among the first points. *)
Fixpoint count_outliers (center_lat center_lon : float) (points : list Coord)
    (outliers : Z) : exc Z :=
  match points with
  | [] => Ret outliers
  | (lon, lat, alt) :: rest =>
      dist <- calculate_distance lat lon center_lat center_lon ;;
      count_outliers center_lat center_lon rest
        (if 30 <? dist then (outliers + 1)%Z else outliers)
  end.

(** The safety override on the start index; it also returns what it
    printed. *)
Definition override_start (raw_coords : list Coord) (start_idx : Z)
    : exc (Z * list Event) :=
  if (start_idx <? 5)%Z && (50 <? len raw_coords)%Z then
    let middle_coords :=
      slice raw_coords (len raw_coords / 3)%Z (2 * len raw_coords / 3)%Z in
    match middle_coords with
    | [] => Ret (start_idx, [])
    | _ :: _ =>
        let center_lat := mean (map coord_lat middle_coords) in
        let center_lon := mean (map coord_lon middle_coords) in
        outliers <- count_outliers center_lat center_lon
                      (firstn (Z.to_nat (Z.min 10 (len raw_coords))) raw_coords) 0%Z ;;
        if (5 <? outliers)%Z then Ret (10%Z, [Print (MsgForcedSkip 10)])
        else Ret (start_idx, [])
    end
  else Ret (start_idx, []).

(** A point as the document formats it; formatting [None] raises. *)
Definition format_point (c : Coord) : exc (float * float * float) :=
  match coord_alt c with
  | Some a => Ret (coord_lon c, coord_lat c, a)
  | None => Raise
  end.

Fixpoint format_points (cs : list Coord) : exc (list (float * float * float)) :=
  match cs with
  | [] => Ret []
  | c :: rest =>
      p <- format_point c ;;
      ps <- format_points rest ;;
      Ret (p :: ps)
  end.

(** [min(l)] and [max(l)] of a non-empty list *)
Definition min_list (l : list float) : float :=
  match l with
  | [] => nan
  | x :: t => fold_left Py.min t x
  end.

Definition max_list (l : list float) : float :=
  match l with
  | [] => nan
  | x :: t => fold_left Py.max t x
  end.

(** [[c[2] for c in coords if c[2]]] *)
Fixpoint truthy_altitudes (cs : list Coord) : list float :=
  match cs with
  | [] => []
  | c :: rest =>
      match coord_alt c with
      | Some a => if truthy a then a :: truthy_altitudes rest else truthy_altitudes rest
      | None => truthy_altitudes rest
      end
  end.

Definition kml_document (coords : list Coord) : exc KmlDoc :=
  path <- format_points coords ;;
  match path with
  | [] => Raise
  | first :: _ =>
      Ret {| kml_count := len coords;
             kml_path := path;
             kml_start := first;
             kml_finish := last path first |}
  end.

Definition export_trajectory_kml (self : Session) (filename : string) : list Event :=
  let out0 := [Print (MsgCreateKml filename)] in
  let raw_coords := trajectory_coords (gps_all self) in
  match raw_coords with
  | [] => out0 ++ [Print MsgNoCoords]
  | _ :: _ =>
      match (start_idx <- find_real_start_point raw_coords ;;
             override_start raw_coords start_idx) with
      | Raise => out0 ++ [Uncaught]
      | Ret (start_idx, printed) =>
          let out1 := out0 ++ printed in
          let out2 :=
            if (0 <? start_idx)%Z then out1 ++ [Print (MsgSkipped start_idx)] else out1 in
          let raw_coords :=
            if (0 <? start_idx)%Z then skipn (Z.to_nat start_idx) raw_coords
            else raw_coords in
          let coords := interpolate_altitude raw_coords in
          match coords with
          | [] => out2 ++ [Print MsgNoCoords]
          | first :: _ =>
              let altitudes := truthy_altitudes coords in
              let out3 :=
                match altitudes with
                | [] => out2
                | _ :: _ =>
                    out2 ++ [Print (MsgAltitudeRange (min_list altitudes) (max_list altitudes))]
                end in
              match kml_document coords with
              | Raise => out3 ++ [Uncaught]
              | Ret doc =>
                  out3 ++
                  [WriteKml filename doc;
                   Print (MsgKmlCreated (len coords));
                   Print (MsgStart (coord_lat first) (coord_lon first));
                   Print (MsgFinish (coord_lat (last coords first))
                                    (coord_lon (last coords first)))]
              end
          end
      end
  end.

End Exporters.

(** ** Reference inputs

    [exact_points_math] is a [MathLib] that answers only where ISO C
    (Annex F) fixes the result of the C library exactly: [sin(0) = 0],
    [cos(0) = 1], [atan2(0, x) = 0] for [x > 0], [pow(0, 2) = 0]; everywhere
    else it answers NaN.  [math.radians] multiplies by [pi / 180], and [sum]
    adds from the left.  It is used to run the parser on concrete logs whose
    distance computations only meet those arguments. *)

Module Reference.

#[local] Open Scope float_scope.

Definition exact_sin (x : float) : exc float := Ret (if x =? 0 then x else nan).
Definition exact_cos (x : float) : exc float := Ret (if x =? 0 then 1 else nan).
Definition exact_atan2 (y x : float) : float :=
  if (y =? 0) && (0 <? x) then y else nan.
Definition exact_pow (x y : float) : exc float :=
  Ret (if (x =? 0) && (y =? 2) then 0 else nan).
Definition exact_radians (x : float) : float := x * (0x1.921fb54442d18p+1 / 180).
Definition left_sum (l : list float) : float := fold_left PrimFloat.add l 0.

Definition exact_points_math : MathLib :=
  {| radians := exact_radians; sin := exact_sin; cos := exact_cos;
     atan2 := exact_atan2; pow := exact_pow; fsum := left_sum |}.

(** Little-endian binary32 fields *)
Definition f32_0 : list byte := [x00; x00; x00; x00].        (* 0.0 *)
Definition f32_55_75 : list byte := [x00; x00; x5f; x42].    (* 55.75 *)
Definition f32_37_62 : list byte := [xe1; x7a; x16; x42].    (* 37.62 *)
Definition f32_150 : list byte := [x00; x00; x16; x43].      (* 150.0 *)
Definition f32_nan : list byte := [x00; x00; xc0; x7f].      (* NaN *)

(** An absolute-GPS record (36 bytes): marker, tag [23 52 01], counter 5,
    16 filler bytes, latitude, longitude, altitude. *)
Definition absolute_record (lat lon alt : list byte) : list byte :=
  [x7e; x23; x52; x01] ++ [x05; x00; x00; x00] ++ repeat x00 16 ++ lat ++ lon ++ alt.

(** A record of an undocumented type (13 bytes): marker, tag [01 02 03], a
    coordinate pair at offset 4, one more byte. *)
Definition unknown_record (lat lon : list byte) : list byte :=
  [x7e; x01; x02; x03] ++ lat ++ lon ++ [x00].

(** 99 absolute-GPS records followed by one undocumented record, all at
    latitude 0, longitude 37.62. *)
Definition log_99_known_1_unknown : list byte :=
  concat (repeat (absolute_record f32_0 f32_37_62 f32_150) 99)
  ++ unknown_record f32_0 f32_37_62.

(** Two absolute-GPS records at 55.75, 37.62 with altitudes 150 and 0. *)
Definition log_altitude_150_0 : list byte :=
  absolute_record f32_55_75 f32_37_62 f32_150
  ++ absolute_record f32_55_75 f32_37_62 f32_0.

(** Two absolute-GPS records at 55.75, 37.62 with altitudes 150 and NaN. *)
Definition log_altitude_150_nan : list byte :=
  absolute_record f32_55_75 f32_37_62 f32_150
  ++ absolute_record f32_55_75 f32_37_62 f32_nan.

(** *** A log with two antipodal points

    [rounded_points_math] extends [exact_points_math] by the correctly
    rounded values of [sin], [cos], [atan2] and [x ** 2] at the arguments
    that the distance computations between the points (8, 30), (-8, -150)
    and (-8.125, -150) reach; the C library returns these values there.
    Everywhere else it answers like [exact_points_math]. *)

Definition lookup {A : Type} (same : A -> A -> bool) (table : list (A * float))
    (x : A) : option float :=
  match find (fun kv => same (fst kv) x) table with
  | Some kv => Some (snd kv)
  | None => None
  end.

Definition sin_table : list (float * float) :=
  [(0x1.1df46a2529d39p-3, 0x1.1d06c968d9e19p-3);       (* sin 8 deg *)
   (0x1.921fb54442d18p+0, 1);                          (* sin 90 deg *)
   (0x1.203052f974273p-3, 0x1.1f3d16418575ap-3);       (* sin 8.0625 deg *)
   (0x1.1df46a2529d39p-10, 0x1.1df4666db9959p-10)].    (* sin 0.0625 deg *)

Definition cos_table : list (float * float) :=
  [(0x1.1df46a2529d39p-3, 0x1.fb046a930947ap-1);       (* cos 8 deg *)
   (-0x1.1df46a2529d39p-3, 0x1.fb046a930947ap-1);      (* cos -8 deg *)
   (-0x1.226c3bcdbe7aep-3, 0x1.fadc4f6bab941p-1)].     (* cos -8.125 deg *)

Definition square_table : list (float * float) :=
  [(0x1.1d06c968d9e19p-3, 0x1.3d581ca184804p-6);
   (1, 1);
   (0x1.1f3d16418575ap-3, 0x1.424a067a8666bp-6);
   (0x1.1df4666db9959p-10, 0x1.3f6a1563b95c6p-20)].

Definition atan2_table : list (float * float * float) :=
  [((0x1.ffffec095e462p-1, 0x1.1df4666dd9343p-10), 0x1.91d83829b97f2p+0);
   ((0x1.1df4666db9959p-10, 0x1.ffffec095e462p-1), 0x1.1df46a2529d39p-10)].

Definition same_pair (a b : float * float) : bool :=
  (fst a =? fst b) && (snd a =? snd b).

Definition rounded_sin (x : float) : exc float :=
  match lookup PrimFloat.eqb sin_table x with
  | Some v => Ret v
  | None => exact_sin x
  end.

Definition rounded_cos (x : float) : exc float :=
  match lookup PrimFloat.eqb cos_table x with
  | Some v => Ret v
  | None => exact_cos x
  end.

Definition rounded_atan2 (y x : float) : float :=
  match lookup same_pair atan2_table (y, x) with
  | Some v => v
  | None => exact_atan2 y x
  end.

Definition rounded_pow (x y : float) : exc float :=
  match (if y =? 2 then lookup PrimFloat.eqb square_table x else None) with
  | Some v => Ret v
  | None => exact_pow x y
  end.

Definition rounded_points_math : MathLib :=
  {| radians := exact_radians; sin := rounded_sin; cos := rounded_cos;
     atan2 := rounded_atan2; pow := rounded_pow; fsum := left_sum |}.

Definition f32_8 : list byte := [x00; x00; x00; x41].        (* 8.0 *)
Definition f32_30 : list byte := [x00; x00; xf0; x41].       (* 30.0 *)
Definition f32_m8 : list byte := [x00; x00; x00; xc1].       (* -8.0 *)
Definition f32_m150 : list byte := [x00; x00; x16; xc3].     (* -150.0 *)
Definition f32_m8_125 : list byte := [x00; x00; x02; xc1].   (* -8.125 *)

(** Two absolute-GPS records, at (8, 30) and at its antipode (-8, -150). *)
Definition log_antipodal_known : list byte :=
  absolute_record f32_8 f32_30 f32_150
  ++ absolute_record f32_m8 f32_m150 f32_150.

(** A record of an undocumented type (21 bytes): marker, tag [01 02 03],
    the pair (-8, -150) at offset 4, the pair (-8.125, -150) at offset 12,
    one more byte.  The pairs read at the offsets 5 to 11 are not valid
    coordinates. *)
Definition two_pair_record : list byte :=
  [x7e; x01; x02; x03] ++ f32_m8 ++ f32_m150 ++ f32_m8_125 ++ f32_m150 ++ [x00].

(** The two antipodal absolute-GPS records, then the two-pair record at
    file position 72. *)
Definition log_antipodal : list byte := log_antipodal_known ++ two_pair_record.

End Reference.

(** ** The claims' own words *)

Section Words.

Context {M : MathLib}.

#[local] Open Scope float_scope.

(** The great-circle distance in the claims' words: the haversine formula
    on a sphere of radius 6371 km,
    [h = sin^2(dlat / 2) + cos(lat1) * cos(lat2) * sin^2(dlon / 2)] and
    [d = 6371 * 2 * atan2(sqrt h, sqrt (1 - h))], with the angles in radians.
    In binary64 the rounded [h] can exceed 1; the distance then does not
    exist. *)
Definition haversine_km (lat1 lon1 lat2 lon2 : float) : exc float :=
  sin_dlat <- sin (radians (lat2 - lat1) / 2) ;;
  sin2_dlat <- pow sin_dlat 2 ;;
  cos_lat1 <- cos (radians lat1) ;;
  cos_lat2 <- cos (radians lat2) ;;
  sin_dlon <- sin (radians (lon2 - lon1) / 2) ;;
  sin2_dlon <- pow sin_dlon 2 ;;
  let h := sin2_dlat + cos_lat1 * cos_lat2 * sin2_dlon in
  root_h <- math_sqrt h ;;
  root_1_h <- math_sqrt (1 - h) ;;
  Ret (6371 * (2 * atan2 root_h root_1_h)).

(** The haversine distances from [(lat, lon)] to each point; they do not
    exist when one of them does not. *)
Fixpoint distances (lat lon : float) (points : list (float * float))
    : exc (list float) :=
  match points with
  | [] => Ret []
  | (hist_lat, hist_lon) :: rest =>
      d <- haversine_km lat lon hist_lat hist_lon ;;
      ds <- distances lat lon rest ;;
      Ret (d :: ds)
  end.

(** [m] is the least of the distances [ds]: it is one of them (or the
    starting value, infinity), it is a number, and none of them is below it. *)
Definition is_minimum (m : float) (ds : list float) : Prop :=
  (m = infinity \/ In m ds) /\ (m =? m) = true /\
  Forall (fun d => (d <? m) = false) ds.

(** The pair decoded at [offset] is kept by the heuristic locator: both
    numbers decode, the validity and noise tests accept them, the coherence
    check returns true, and with more than 10 points in the history the
    region check returns true.  A check that raises has not returned true:
    the scan loop skips such an offset. *)
Definition passes_filters (self : Session) (record : list byte) (offset : Z)
    (lat lon : float) : Prop :=
  unpack_f (slice record offset (offset + 4)) = Ret lat /\
  unpack_f (slice record (offset + 4) (offset + 8)) = Ret lon /\
  is_valid_coordinate (Some lat) (Some lon) = true /\
  ((abs lat <? 1.0) && (abs lon <? 1.0)) = false /\
  is_geographically_coherent self lat lon 50 = Ret true /\
  ((10 < len (coord_history self))%Z -> is_in_reasonable_region self lat lon = Ret true).

(** The median the claim names: the lower of the two middle elements when
    the length is even. *)
Definition lower_median (l : list float) : float :=
  nth ((length l - 1) / 2) (sorted l) nan.

(** The validity invariant of a geographic sample. *)
Definition valid_pair (lat lon : float) : Prop :=
  (-90 <=? lat) = true /\ (lat <=? 90) = true /\
  (-180 <=? lon) = true /\ (lon <=? 180) = true /\
  ((abs lat <? 0.01) && (abs lon <? 0.01)) = false.

Definition valid_sample (g : Gps) : Prop :=
  exists lat lon,
    latitude g = Some lat /\ longitude g = Some lon /\ valid_pair lat lon.

(** The session in which the second loop reaches the record that follows
    the records [before]: the first loop has run over the whole file, the
    region estimate has been refreshed, and the second loop has run over
    [before]. *)
Definition session_before (data : list byte) (before : list (Z * list byte))
    : Session :=
  phase2 before (after_phase1 (phase1 (find_records data) init_session)).

(** [o] is the offset the scan of [record] stops at in session [self]: the
    lowest offset of the scan range at which the decoded pair is kept. *)
Definition lowest_passing_offset (self : Session) (record : list byte) (o : Z)
    (lat lon : float) : Prop :=
  (4 <= o < Z.min (len record - 8) 80)%Z /\
  passes_filters self record o lat lon /\
  forall o' lat' lon', (4 <= o' < o)%Z -> ~ passes_filters self record o' lat' lon'.


(** The refresh log the code keeps: one entry after the known-GPS phase when
    it found [K > 0] coordinates, then one entry at every history length in
    [(K, K + D]] that is a multiple of 100, where [D] counts the discovered
    points. *)
Definition refreshes_by_history_length (K D : Z) : list Z :=
  (if (0 <? K)%Z then [K] else []) ++
  filter (fun n => (n mod 100 =? 0)%Z) (range (K + 1) (K + D + 1)).

(** The refresh log as the claim words it: after the known-GPS phase, one
    entry each time the number of discovered points reaches a multiple of
    100, whatever [K] is. *)
Definition refreshes_by_discovered_count (K D : Z) : list Z :=
  (if (0 <? K)%Z then [K] else []) ++
  map (fun j => (K + j)%Z) (filter (fun j => (j mod 100 =? 0)%Z) (range 1 (D + 1))).

(** The record's tag is neither of the two known layouts nor [KS]. *)
Definition unknown_tag (record : list byte) : Prop :=
  ~ (index record 1 = Some x23 /\ index record 2 = Some x52) /\
  ~ (index record 1 = Some x27 /\ index record 2 = Some x52) /\
  ~ (index record 1 = Some x4b /\ index record 2 = Some x53).

(** The median the code takes: the element at index [len // 2] of the sorted
    list, the upper of the two middle elements when the length is even. *)
Definition upper_median (l : list float) : float :=
  nth (length l / 2) (sorted l) nan.

(** A session whose GPS sequences, history and refresh log are those of [s]
    ([region_center] and [telemetry] may differ). *)
Definition same_points (s s' : Session) : Prop :=
  gps_all s' = gps_all s /\ gps_discovered s' = gps_discovered s /\
  coord_history s' = coord_history s /\ region_refreshes s' = region_refreshes s.

(** The record reaches the heuristic locator in the second loop. *)
Definition reaches_locator (record : list byte) : bool :=
  negb (len record <? 4)%Z &&
  negb (is_known_type (hex (slice record 1 (Z.min 4 (len record))))) &&
  negb (bytes_eqb (slice record 1 3) KS).

End Words.

(** ** Descriptions used by the further properties *)

(** The records tile the file from position [p] on: each one begins where
    the one before it ends. *)
Fixpoint tiled (p : Z) (records : list (Z * list byte)) : Prop :=
  match records with
  | [] => True
  | (q, r) :: rest => q = p /\ tiled (p + len r) rest
  end.

(** A framed record: the marker, then bytes that are not the marker. *)
Definition well_framed (record : list byte) : Prop :=
  exists body, record = x7e :: body /\ Forall (fun b => is_marker b = false) body.

(** [data.find(b'\x7E', start)] for [0 <= start]: the first index from
    [start] on that holds the marker, [-1] when there is none.
    [find_marker pos l] searches [l], whose first byte sits at [pos]. *)
Fixpoint find_marker (pos : Z) (l : list byte) : Z :=
  match l with
  | [] => -1
  | b :: t => if is_marker b then pos else find_marker (pos + 1) t
  end.

Definition bytes_find (data : list byte) (start : Z) : Z :=
  find_marker start (skipn (Z.to_nat start) data).

(** The [while] loop of [find_records] as the source writes it, from index
    [i] with the records collected so far.  [fuel] bounds the number of times
    the loop condition [i < len(data)] is tested: the loop returns [Some]
    list when it finds the condition false, and [None] when the fuel runs out
    before that. *)
Fixpoint find_records_loop (fuel : nat) (data : list byte) (i : Z)
    (records : list (Z * list byte)) : option (list (Z * list byte)) :=
  match fuel with
  | O => None
  | S fuel' =>
      if i <? len data then
        if byte_at_is data i x7e then
          let next_pos := bytes_find data (i + 1) in
          let next_pos := if next_pos =? -1 then len data else next_pos in
          let record := slice data i next_pos in
          find_records_loop fuel' data next_pos (records ++ [(i, record)])
        else find_records_loop fuel' data (i + 1) records
      else Some records
  end.

(** [l] is a subsequence of [m]: the elements of [l] occur in [m], in the
    same order. *)
Inductive subsequence {A : Type} : list A -> list A -> Prop :=
| subsequence_nil : subsequence [] []
| subsequence_skip (x : A) (l m : list A) :
    subsequence l m -> subsequence l (x :: m)
| subsequence_take (x : A) (l m : list A) :
    subsequence l m -> subsequence (x :: l) (x :: m).

(** The sample comes from the absolute-GPS layout. *)
Definition is_absolute (g : Gps) : bool :=
  match source g with
  | KNOWN_TYPE => true
  | _ => false
  end.

(** The horizontal position of a trajectory point, as the history holds it. *)
Definition coord_pair (c : Coord) : float * float := (coord_lat c, coord_lon c).

(** How the sequences of a session hang together: [gps_all] is the
    absolute-GPS samples of [gps_known] followed by the discovered samples;
    the exporter's raw trajectory has one point per entry of [gps_all]; and
    its horizontal positions are the coordinate history. *)
Definition consistent (s : Session) : Prop :=
  gps_all s = filter is_absolute (gps_known s) ++ gps_discovered s /\
  length (trajectory_coords (gps_all s)) = length (gps_all s) /\
  map coord_pair (trajectory_coords (gps_all s)) = coord_history s.

(** The record's tag is one of the two known layouts or [KS]. *)
Definition dispatched_tag (record : list byte) : Prop :=
  (index record 1 = Some x23 /\ index record 2 = Some x52) \/
  (index record 1 = Some x27 /\ index record 2 = Some x52) \/
  (index record 1 = Some x4b /\ index record 2 = Some x53).

(** [[x] if x is not None else []] *)
Definition option_list {A : Type} (x : option A) : list A :=
  match x with
  | Some a => [a]
  | None => []
  end.

Section Provenance.

Context {M : MathLib}.

(** The discovered sample [g] is what the locator, in session [self], reads
    off the record that begins at [pos]: the pair at the lowest offset of the
    scan range that the session keeps, and the altitude that follows it. *)
Definition discovered_from (self : Session) (pos : Z) (record : list byte)
    (g : Gps) : Prop :=
  unknown_tag record /\ (13 <= len record)%Z /\
  source g = DISCOVERED /\ record_pos g = Some pos /\ counter g = None /\
  type_hex g = hex (slice record 1 4) /\
  (exists lat lon,
     latitude g = Some lat /\ longitude g = Some lon /\
     lowest_passing_offset self record (record_offset g) lat lon) /\
  altitude g = candidate_altitude record (record_offset g).

(** The scan loop keeps the offset [o]. *)
Definition has_candidate (s : Session) (record : list byte) (o : Z) : bool :=
  match candidate_at s record o with
  | Some _ => true
  | None => false
  end.

End Provenance.

Section StartPoint.

Context {M : MathLib}.

(** The centroid of the middle third of the trajectory, as
    [find_real_start_point] computes it. *)
Definition middle_centre (coords : list Coord) : float * float :=
  let middle_coords := slice coords (len coords / 3)%Z (2 * len coords / 3)%Z in
  (mean (map coord_lat middle_coords), mean (map coord_lon middle_coords)).

(** Whether the point lies within 30 km of that centroid. *)
Definition near_centre (coords : list Coord) (c : Coord) : exc bool :=
  dist <- calculate_distance (coord_lat c) (coord_lon c)
            (fst (middle_centre coords)) (snd (middle_centre coords)) ;;
  Ret (dist <? 30)%float.

End StartPoint.

(** Point [j] of the trajectory carries the positive altitude [a]. *)
Definition positive_at (coords : list Coord) (j : Z) (a : float) : Prop :=
  exists c, index coords j = Some c /\ coord_alt c = Some a /\ (0 <? a)%float = true.

(** [j], with altitude [a], is the nearest point before [i] that carries a
    positive altitude, among the points the backward search reads: the
    indices from [i-1] down to [max(1, i-19)]. *)
Definition nearest_before (coords : list Coord) (i j : Z) (a : float) : Prop :=
  (Z.max 1 (i - 19) <= j <= i - 1)%Z /\ positive_at coords j a /\
  forall j', (j < j' <= i - 1)%Z -> has_altitude coords j' = false.

(** [j], with altitude [a], is the nearest point after [i] that carries a
    positive altitude, among the points the forward search reads: the
    indices from [i+1] up to [min(len-1, i+19)]. *)
Definition nearest_after (coords : list Coord) (i j : Z) (a : float) : Prop :=
  (i + 1 <= j <= Z.min (len coords - 1) (i + 19))%Z /\ positive_at coords j a /\
  forall j', (i + 1 <= j' < j)%Z -> has_altitude coords j' = false.

(** No point that the backward (forward) search reads carries a positive
    altitude. *)
Definition none_before (coords : list Coord) (i : Z) : Prop :=
  forall j, (Z.max 1 (i - 19) <= j <= i - 1)%Z -> has_altitude coords j = false.

Definition none_after (coords : list Coord) (i : Z) : Prop :=
  forall j, (i + 1 <= j <= Z.min (len coords - 1) (i + 19))%Z ->
    has_altitude coords j = false.

(** The region estimate is absent exactly as long as it was never
    refreshed. *)
Definition unset_iff_never_refreshed (s : Session) : Prop :=
  region_center s = None <-> region_refreshes s = [].

(** [x] is not greater than [y], as Python's [<] sees it. *)
Definition not_greater (x y : float) : Prop := (y <? x)%float = false.

(** How many of the numbers are not greater (not less) than [m]. *)
Definition count_not_greater (m : float) (l : list float) : nat :=
  length (filter (fun x => negb (m <? x)%float) l).

Definition count_not_less (m : float) (l : list float) : nat :=
  length (filter (fun x => negb (x <? m)%float) l).

(** The two kinds of row the point table can hold. *)
Definition known_row (row : CsvRow) : Prop :=
  col_source row = CellStr "KNOWN_TYPE" /\
  col_record_offset row = CellInt 24 /\
  exists n lat lon alt,
    col_counter row = CellInt n /\ col_latitude row = CellFloat lat /\
    col_longitude row = CellFloat lon /\ col_altitude row = CellFloat alt.

Definition discovered_row (row : CsvRow) : Prop :=
  col_source row = CellStr "DISCOVERED" /\
  col_counter row = CellStr "" /\
  (exists lat lon,
     col_latitude row = CellFloat lat /\ col_longitude row = CellFloat lon) /\
  (col_altitude row = CellNone \/
   exists a, col_altitude row = CellFloat a /\
             (-500 <? a)%float = true /\ (a <? 10000)%float = true).

(** * Properties *)

(** ** Order of binary64 numbers *)

Module FloatOrder.

Ltac split_compare :=
  repeat match goal with
  | H : context [Z.compare ?a ?b] |- _ => destruct (Z.compare_spec a b)
  | |- context [Z.compare ?a ?b] => destruct (Z.compare_spec a b)
  | H : context [Pos.compare_cont Eq ?a ?b] |- _ =>
      change (Pos.compare_cont Eq a b) with (Pos.compare a b) in *;
      destruct (Pos.compare_spec a b)
  | |- context [Pos.compare_cont Eq ?a ?b] =>
      change (Pos.compare_cont Eq a b) with (Pos.compare a b) in *;
      destruct (Pos.compare_spec a b)
  end.

Ltac by_cases x y z :=
  destruct x as [[]|[]| |[] ? ?], y as [[]|[]| |[] ? ?], z as [[]|[]| |[] ? ?];
  cbn; try congruence; intros; split_compare; subst; cbn in *;
  try congruence; try lia.

Lemma SFltb_trans (x y z : spec_float) :
  SFltb x y = true -> SFltb y z = true -> SFltb x z = true.
Proof. unfold SFltb. by_cases x y z. Qed.

Lemma SFltb_false_trans (x y z : spec_float) :
  SFltb x y = false -> SFeqb y y = true -> SFltb x z = true -> SFltb y z = true.
Proof. unfold SFltb, SFeqb. by_cases x y z. Qed.

Lemma SFltb_ordered (x y : spec_float) :
  SFltb x y = true -> SFeqb x x = true.
Proof.
  unfold SFltb, SFeqb.
  destruct x as [[]|[]| |[] ? ?], y as [[]|[]| |[] ? ?]; cbn; try congruence;
    intros; rewrite ?Z.compare_refl; cbn;
    change (Pos.compare_cont Eq ?a ?a) with (Pos.compare a a);
    rewrite ?Pos.compare_refl; reflexivity.
Qed.

#[local] Open Scope float_scope.

(** [<] is transitive. *)
Lemma ltb_trans (x y z : float) :
  (x <? y) = true -> (y <? z) = true -> (x <? z) = true.
Proof. rewrite !FloatAxioms.ltb_spec. apply SFltb_trans. Qed.

(** When [x] is not below the number [y], whatever [x] is below, [y] is too. *)
Lemma ltb_false_trans (x y z : float) :
  (x <? y) = false -> (y =? y) = true -> (x <? z) = true -> (y <? z) = true.
Proof.
  rewrite !FloatAxioms.ltb_spec, FloatAxioms.eqb_spec. apply SFltb_false_trans.
Qed.

(** Only numbers compare below something: NaN never does. *)
Lemma ltb_ordered (x y : float) : (x <? y) = true -> (x =? x) = true.
Proof. rewrite FloatAxioms.ltb_spec, FloatAxioms.eqb_spec. apply SFltb_ordered. Qed.

(** The running minimum of the coherence loop. *)
Lemma fold_min_spec (ds : list float) :
  forall m0, (m0 =? m0) = true ->
  let m := fold_left Py.min ds m0 in
  (m =? m) = true /\ (m = m0 \/ In m ds) /\ (m0 <? m) = false /\
  Forall (fun d => (d <? m) = false) ds.
Proof.
  induction ds as [|d ds IH]; intros m0 Hm0; cbn.
  - repeat split; auto.
    destruct (m0 <? m0) eqn:E; [|reflexivity].
    exfalso.
    rewrite FloatAxioms.ltb_spec in E. rewrite FloatAxioms.eqb_spec in Hm0.
    unfold SFltb, SFeqb in *. destruct (SFcompare _ _) as [[]|]; discriminate.
  - assert (Hm1 : (Py.min m0 d =? Py.min m0 d) = true).
    { unfold Py.min. destruct (d <? m0) eqn:E; [eapply ltb_ordered; eauto | assumption]. }
    destruct (IH _ Hm1) as (Hnum & Hin & Hlow & Hall).
    set (m := fold_left Py.min ds (Py.min m0 d)) in *.
    unfold Py.min in Hin, Hlow. destruct (d <? m0) eqn:E.
    + repeat split; auto.
      * destruct Hin as [->|Hin]; auto.
      * destruct (m0 <? m) eqn:E'; [|reflexivity].
        rewrite (ltb_trans _ _ _ E E') in Hlow. discriminate.
    + repeat split; auto.
      * destruct Hin as [Hin|Hin]; auto.
      * constructor; auto.
        destruct (d <? m) eqn:E'; [|reflexivity].
        rewrite (ltb_false_trans _ _ _ E Hm0 E') in Hlow. discriminate.
Qed.

End FloatOrder.

(** ** Slices and ranges *)

Lemma length_slice {A : Type} (l : list A) (a b : Z) :
  0 <= a -> a <= b -> b <= len l -> length (slice l a b) = Z.to_nat (b - a).
Proof.
  unfold slice, len. intros Ha Hab Hb.
  rewrite length_firstn, length_skipn. lia.
Qed.

Lemma lastn_suffix {A : Type} (n : nat) (l : list A) :
  l = firstn (length l - n) l ++ lastn n l /\
  length (lastn n l) = Nat.min n (length l).
Proof.
  unfold lastn. split.
  - symmetry. apply firstn_skipn.
  - rewrite length_skipn. lia.
Qed.

Lemma in_range (start stop x : Z) :
  In x (range start stop) <-> start <= x < stop.
Proof.
  unfold range. rewrite in_map_iff. split.
  - intros (k & <- & Hk). apply in_seq in Hk. lia.
  - intros H. exists (Z.to_nat (x - start)). split; [lia|]. apply in_seq. lia.
Qed.

Lemma in_range_down (start stop x : Z) :
  In x (range_down start stop) <-> stop < x <= start.
Proof.
  unfold range_down. rewrite in_map_iff. split.
  - intros (k & <- & Hk). apply in_seq in Hk. lia.
  - intros H. exists (Z.to_nat (start - x)). split; [lia|]. apply in_seq. lia.
Qed.

Lemma range_cons (start stop : Z) :
  start < stop -> range start stop = start :: range (start + 1) stop.
Proof.
  intros H. unfold range.
  replace (Z.to_nat (stop - start)) with (S (Z.to_nat (stop - (start + 1)))) by lia.
  cbn [seq map]. f_equal; [lia|].
  rewrite <- seq_shift, map_map. apply map_ext. intros k. lia.
Qed.

Lemma range_empty (start stop : Z) : stop <= start -> range start stop = [].
Proof.
  intros H. unfold range. replace (Z.to_nat (stop - start)) with 0%nat by lia.
  reflexivity.
Qed.

(** ** Geographic coherence (C3, X24) *)

Section Coherence.

Context {M : MathLib}.

#[local] Open Scope float_scope.

(** [calculate_distance] computes the haversine distance on a sphere of
    radius 6371 km, operation by operation. *)
Lemma calculate_distance_is_haversine (lat1 lon1 lat2 lon2 : float) :
  calculate_distance lat1 lon1 lat2 lon2 = haversine_km lat1 lon1 lat2 lon2.
Proof. reflexivity. Qed.

Lemma min_distance_loop_distances (lat lon : float) (points : list (float * float)) :
  forall m0,
  min_distance_loop points lat lon m0 =
  match distances lat lon points with
  | Ret ds => Ret (fold_left Py.min ds m0)
  | Raise => Raise
  end.
Proof.
  induction points as [|[hlat hlon] rest IH]; intros m0;
    cbn [min_distance_loop distances]; [reflexivity|].
  rewrite calculate_distance_is_haversine.
  destruct (haversine_km lat lon hlat hlon) as [d|]; cbn [bind]; [|reflexivity].
  rewrite IH. destruct (distances lat lon rest); reflexivity.
Qed.

Lemma minimum_below (m c : float) (ds : list float) :
  is_minimum m ds -> (infinity <? c) = false ->
  ((m <? c) = true <-> Exists (fun d => (d <? c) = true) ds).
Proof.
  intros ([-> | Hin] & Hnum & Hall) Hc; split.
  - congruence.
  - intros Hex. apply Exists_exists in Hex. destruct Hex as (d & Hd & Hlt).
    rewrite Forall_forall in Hall.
    exact (FloatOrder.ltb_false_trans _ _ _ (Hall d Hd) Hnum Hlt).
  - intros Hlt. apply Exists_exists. eauto.
  - intros Hex. apply Exists_exists in Hex. destruct Hex as (d & Hd & Hlt).
    rewrite Forall_forall in Hall.
    exact (FloatOrder.ltb_false_trans _ _ _ (Hall d Hd) Hnum Hlt).
Qed.

(** X24.  With an empty coordinate history the coherence check returns
    true for every candidate.  With a non-empty history it looks only at
    the most recent entries, at most 10 of them.  When the haversine distance
    (sphere of radius 6371 km) from the candidate to one of them does not
    exist, the check raises; otherwise it returns whether the minimum [m] of
    those distances is strictly below 50, which is the case exactly when one
    of those entries is closer than 50 km. *)
Theorem coherent_iff_min_distance_below_50 (self : Session) (lat lon : float) :
  match coord_history self with
  | [] => is_geographically_coherent self lat lon 50 = Ret true
  | _ :: _ =>
      exists older recent,
        coord_history self = older ++ recent /\
        length recent = Nat.min 10 (length (coord_history self)) /\
        match distances lat lon recent with
        | Raise => is_geographically_coherent self lat lon 50 = Raise
        | Ret ds =>
            exists m,
              is_minimum m ds /\
              is_geographically_coherent self lat lon 50 = Ret (m <? 50) /\
              ((m <? 50) = true <-> Exists (fun d => (d <? 50) = true) ds)
        end
  end.
Proof.
  unfold is_geographically_coherent.
  destruct (coord_history self) as [|p h] eqn:Eh; [reflexivity|].
  destruct (lastn_suffix 10 (p :: h)) as [Hsplit Hlen].
  exists (firstn (length (p :: h) - 10) (p :: h)), (lastn 10 (p :: h)).
  split; [exact Hsplit|]. split; [exact Hlen|].
  rewrite min_distance_loop_distances.
  destruct (distances lat lon (lastn 10 (p :: h))) as [ds|]; cbn; [|reflexivity].
  destruct (FloatOrder.fold_min_spec ds infinity eq_refl) as (Hnum & Hin & _ & Hall).
  assert (Hmin : is_minimum (fold_left Py.min ds infinity) ds) by (repeat split; auto).
  exists (fold_left Py.min ds infinity). split; [exact Hmin|]. split; [reflexivity|].
  apply minimum_below; [exact Hmin | reflexivity].
Qed.

(** The distance is the haversine formula on a sphere of radius 6371. *)
Lemma calculate_distance_haversine (lat1 lon1 lat2 lon2 s1 p1 c1 c2 s2 p2 r1 r2 : float) :
  sin (radians (lat2 - lat1) / 2) = Ret s1 -> pow s1 2 = Ret p1 ->
  cos (radians lat1) = Ret c1 -> cos (radians lat2) = Ret c2 ->
  sin (radians (lon2 - lon1) / 2) = Ret s2 -> pow s2 2 = Ret p2 ->
  math_sqrt (p1 + c1 * c2 * p2) = Ret r1 ->
  math_sqrt (1 - (p1 + c1 * c2 * p2)) = Ret r2 ->
  calculate_distance lat1 lon1 lat2 lon2 = Ret (6371 * (2 * atan2 r1 r2)).
Proof.
  intros H1 H2 H3 H4 H5 H6 H7 H8. unfold calculate_distance.
  rewrite H1; cbn. rewrite H2; cbn. rewrite H3; cbn. rewrite H4; cbn.
  rewrite H5; cbn. rewrite H6; cbn. rewrite H7; cbn. rewrite H8; cbn.
  reflexivity.
Qed.

End Coherence.

(** C3 fails on the code.  After a log of two absolute-GPS records, at
    (8, 30) and at its antipode (-8, -150), the coordinate history holds these
    two points.  The candidate (-8, -150) lies on the second of them: that
    distance is 0 km, so the minimum distance to the history is below 50 km
    and the claim has the check return true.  But for the first entry the
    haversine term rounds to [1 + 2^-52], above 1; [math.sqrt] raises on
    [1 - h], no handler is in the way, and the check raises. *)
Theorem coherence_raises_next_to_latest_point :
  coord_history (@parse_all Reference.rounded_points_math Reference.log_antipodal_known) =
    [(8, 30); (-8, -150)]%float /\
  @haversine_km Reference.rounded_points_math (-8) (-150) (-8) (-150) = Ret 0%float /\
  (0 <? 50)%float = true /\
  math_sqrt (1 - 0x1.0000000000001p+0) = Raise /\
  @calculate_distance Reference.rounded_points_math (-8) (-150) 8 30 = Raise /\
  @is_geographically_coherent Reference.rounded_points_math
    (@parse_all Reference.rounded_points_math Reference.log_antipodal_known)
    (-8) (-150) 50 = Raise.
Proof. repeat split; vm_compute; reflexivity. Qed.

(** ** Absolute-GPS decoder (C7) *)

Lemma byte_at_is_spec (record : list byte) (i : Z) (b : byte) :
  byte_at_is record i b = true <-> index record i = Some b.
Proof.
  unfold byte_at_is. destruct (index record i) as [c|]; split; try discriminate.
  - intros H. apply byte_dec_bl in H. congruence.
  - intros [= ->]. apply byte_dec_lb. reflexivity.
Qed.

Lemma unpack_f_slice (record : list byte) (a : Z) :
  0 <= a -> a + 4 <= len record ->
  unpack_f (slice record a (a + 4)) = Ret (float32_of_bits (le_uint (slice record a (a + 4)))).
Proof.
  intros Ha Hb. unfold unpack_f. rewrite length_slice by lia.
  replace (Z.to_nat (a + 4 - a)) with 4%nat by lia. reflexivity.
Qed.

Lemma unpack_I_slice (record : list byte) (a : Z) :
  0 <= a -> a + 4 <= len record ->
  unpack_I (slice record a (a + 4)) = Ret (le_uint (slice record a (a + 4))).
Proof.
  intros Ha Hb. unfold unpack_I. rewrite length_slice by lia.
  replace (Z.to_nat (a + 4 - a)) with 4%nat by lia. reflexivity.
Qed.




(** ** Heuristic locator: what one offset yields *)

Section Locator.

Context {M : MathLib}.

#[local] Open Scope float_scope.

Lemma is_valid_coordinate_iff (lat lon : float) :
  is_valid_coordinate (Some lat) (Some lon) = true <-> valid_pair lat lon.
Proof.
  unfold is_valid_coordinate, valid_pair.
  destruct (-90 <=? lat), (lat <=? 90), (-180 <=? lon), (lon <=? 180),
    ((abs lat <? 0.01) && (abs lon <? 0.01)); cbn; intuition congruence.
Qed.

(** The loop body keeps the offset exactly when the pair decoded there
    passes every filter. *)
Lemma candidate_at_iff (self : Session) (record : list byte) (offset : Z) (c : Candidate) :
  candidate_at self record offset = Some c <->
  passes_filters self record offset (c_latitude c) (c_longitude c) /\
  c_offset c = offset /\ c_altitude c = candidate_altitude record offset.
Proof.
  unfold candidate_at, passes_filters.
  destruct (unpack_f (slice record offset (offset + 4))) as [lat|]; cbn [bind catch].
  2:{ split; [discriminate | intros ((H & _) & _); discriminate]. }
  destruct (unpack_f (slice record (offset + 4) (offset + 8))) as [lon|]; cbn [bind catch].
  2:{ split; [discriminate | intros ((_ & H & _) & _); discriminate]. }
  destruct (is_valid_coordinate (Some lat) (Some lon)) eqn:Ev; cbn [negb catch].
  2:{ split; [discriminate|]. intros (([= <-] & [= <-] & H & _) & _). congruence. }
  destruct ((abs lat <? 1.0) && (abs lon <? 1.0)) eqn:Es; cbn [catch].
  { split; [discriminate|]. intros (([= <-] & [= <-] & _ & H & _) & _). congruence. }
  destruct (is_geographically_coherent self lat lon 50) as [[|]|] eqn:Ec;
    cbn [bind negb catch].
  2,3: split; [discriminate|];
       intros (([= <-] & [= <-] & _ & _ & H & _) & _); congruence.
  destruct (10 <? len (coord_history self))%Z eqn:E10.
  - apply Z.ltb_lt in E10.
    destruct (is_in_reasonable_region self lat lon) as [[|]|] eqn:Er;
      cbn [bind negb catch].
    2,3: split; [discriminate|];
         intros (([= <-] & [= <-] & _ & _ & _ & H) & _); specialize (H E10); congruence.
    split.
    + intros [= <-]. cbn. repeat split; auto.
    + intros ((Hlat & Hlon & _) & Ho & Ha). destruct c; cbn in *. congruence.
  - apply Z.ltb_ge in E10. cbn [bind negb catch]. split.
    + intros [= <-]. cbn. repeat split; auto. intros; lia.
    + intros ((Hlat & Hlon & _) & Ho & Ha). destruct c; cbn in *. congruence.
Qed.

Lemma in_scan (self : Session) (record : list byte) (offsets : list Z) (c : Candidate) :
  In c (scan self record offsets) <->
  exists offset, In offset offsets /\ candidate_at self record offset = Some c.
Proof.
  induction offsets as [|o rest IH]; cbn.
  - split; [tauto | intros (? & [] & _)].
  - destruct (candidate_at self record o) as [c'|] eqn:E; cbn; rewrite IH; split.
    + intros [<- | (o' & Hin & Hc)]; eauto.
    + intros (o' & [<- | Hin] & Hc); [left; congruence | right; eauto].
    + intros (o' & Hin & Hc); eauto.
    + intros (o' & [<- | Hin] & Hc); [congruence | eauto].
Qed.

(** Every candidate of a record sits at an offset of the scan range and
    passes the filters there. *)
Lemma in_find_gps_in_record (self : Session) (record : list byte) (c : Candidate) :
  In c (find_gps_in_record self record) ->
  (4 <= c_offset c < Z.min (len record - 8) 80)%Z /\
  passes_filters self record (c_offset c) (c_latitude c) (c_longitude c).
Proof.
  unfold find_gps_in_record. destruct (len record <? 12)%Z; [intros []|].
  rewrite in_scan. intros (o & Hin & Hc).
  apply in_range in Hin. apply candidate_at_iff in Hc.
  destruct Hc as (Hp & Ho & _). subst o. auto.
Qed.

End Locator.

(** What a decoded absolute-GPS sample holds. *)
Lemma known_absolute_fields (record : list byte) (gps : Gps) :
  parse_known_gps_absolute record = Some gps ->
  source gps = KNOWN_TYPE /\ record_offset gps = 24%Z /\
  exists lat lon,
    latitude gps = Some lat /\ longitude gps = Some lon /\
    is_valid_coordinate (Some lat) (Some lon) = true.
Proof.
  unfold parse_known_gps_absolute.
  destruct (len record <? 36)%Z; [discriminate|].
  destruct (negb _); [discriminate|].
  destruct (unpack_I _) as [c|]; cbn [bind catch]; [|discriminate].
  destruct (unpack_f (slice record 24 28)) as [lat|]; cbn [bind catch]; [|discriminate].
  destruct (unpack_f (slice record 28 32)) as [lon|]; cbn [bind catch]; [|discriminate].
  destruct (unpack_f (slice record 32 36)) as [alt|]; cbn [bind catch]; [|discriminate].
  destruct (is_valid_coordinate (Some lat) (Some lon)) eqn:Ev; cbn [negb catch];
    [|discriminate].
  intros [= <-]. cbn. repeat split. exists lat, lon. auto.
Qed.

(** ** How the two loops change the session *)

Section Steps.

Context {M : MathLib}.

#[local] Open Scope Z_scope.

Lemma same_points_refl (s : Session) : same_points s s.
Proof. repeat split. Qed.

Lemma update_region_center_fields (s : Session) :
  gps_all (update_region_center s) = gps_all s /\
  gps_discovered (update_region_center s) = gps_discovered s /\
  coord_history (update_region_center s) = coord_history s /\
  region_refreshes (update_region_center s) =
    region_refreshes s ++
    (match coord_history s with [] => [] | _ :: _ => [len (coord_history s)] end).
Proof.
  unfold update_region_center. destruct (coord_history s) eqn:E; cbn.
  - rewrite app_nil_r. auto.
  - auto.
Qed.

(** The first loop either leaves the points alone or appends one decoded
    absolute-GPS sample to [gps_all] and its pair to the history. *)
Lemma phase1_step_cases (s : Session) (item : Z * list byte) :
  same_points s (phase1_step s item) \/
  exists gps lat lon,
    parse_known_gps_absolute (snd item) = Some gps /\
    latitude gps = Some lat /\ longitude gps = Some lon /\
    gps_all (phase1_step s item) = gps_all s ++ [gps] /\
    gps_discovered (phase1_step s item) = gps_discovered s /\
    coord_history (phase1_step s item) = coord_history s ++ [(lat, lon)] /\
    region_refreshes (phase1_step s item) = region_refreshes s.
Proof.
  destruct item as [pos record]. unfold phase1_step.
  destruct (len record <? 4); [left; apply same_points_refl|].
  destruct (byte_at_is record 1 x23 && byte_at_is record 2 x52).
  - destruct (parse_known_gps_absolute record) as [gps|] eqn:Ep;
      [|left; apply same_points_refl].
    destruct (latitude gps) as [lat|] eqn:Elat; [|left; apply same_points_refl].
    destruct (longitude gps) as [lon|] eqn:Elon; [|left; apply same_points_refl].
    right. exists gps, lat, lon. cbn. repeat split; auto.
  - destruct (byte_at_is record 1 x27 && byte_at_is record 2 x52);
      [|left; apply same_points_refl].
    destruct (parse_known_gps_relative record); left; repeat split.
Qed.

(** The second loop either leaves the points alone, or the record reached the
    locator and its first candidate is appended; the region is then refreshed
    when the history length is a multiple of 100. *)
Lemma phase2_step_cases (s : Session) (pos : Z) (record : list byte) :
  (same_points s (phase2_step s (pos, record)) /\
   (reaches_locator record = true -> find_gps_in_record s record = [])) \/
  exists best rest,
    reaches_locator record = true /\
    find_gps_in_record s record = best :: rest /\
    gps_all (phase2_step s (pos, record)) =
      gps_all s ++ [discovered_gps (hex (slice record 1 (Z.min 4 (len record)))) best pos] /\
    gps_discovered (phase2_step s (pos, record)) =
      gps_discovered s ++
      [discovered_gps (hex (slice record 1 (Z.min 4 (len record)))) best pos] /\
    coord_history (phase2_step s (pos, record)) =
      coord_history s ++ [(c_latitude best, c_longitude best)] /\
    region_refreshes (phase2_step s (pos, record)) =
      region_refreshes s ++
      (if len (coord_history (phase2_step s (pos, record))) mod 100 =? 0
       then [len (coord_history (phase2_step s (pos, record)))] else []).
Proof.
  unfold phase2_step, reaches_locator.
  destruct (len record <? 4); cbn [negb andb].
  { left. split; [apply same_points_refl | discriminate]. }
  destruct (is_known_type _); cbn [negb andb].
  { left. split; [apply same_points_refl | discriminate]. }
  destruct (bytes_eqb (slice record 1 3) KS); cbn [negb andb].
  { left. split; [|discriminate].
    destruct (parse_ks_telemetry record); repeat split. }
  destruct (find_gps_in_record s record) as [|best rest] eqn:Ef.
  { left. split; [apply same_points_refl | reflexivity]. }
  right. exists best, rest. split; [reflexivity|]. split; [reflexivity|].
  set (s1 := append_discovered s _ _ _).
  assert (Hh1 : coord_history s1 =
                 coord_history s ++ [(c_latitude best, c_longitude best)])
    by reflexivity.
  assert (Hr1 : region_refreshes s1 = region_refreshes s) by reflexivity.
  destruct (len (coord_history s1) mod 100 =? 0) eqn:E100.
  - destruct (update_region_center_fields s1) as (Ha & Hd & Hh & Hr).
    rewrite Ha, Hd, Hh, Hr, E100, Hr1. repeat split; auto.
    rewrite Hh1. destruct (coord_history s); reflexivity.
  - rewrite E100, app_nil_r. repeat split; auto.
Qed.

(** A property of the samples that both decoders establish holds of every
    sample parsing ever appends to [gps_all]. *)
Lemma gps_all_invariant (P : Gps -> Prop) :
  (forall record gps, parse_known_gps_absolute record = Some gps -> P gps) ->
  (forall s record type_hex pos c,
     In c (find_gps_in_record s record) -> P (discovered_gps type_hex c pos)) ->
  forall data, Forall P (gps_all (parse_all data)).
Proof.
  intros Hknown Hfound data. unfold parse_all, phase1, phase2.
  assert (H1 : forall records s, Forall P (gps_all s) ->
                 Forall P (gps_all (fold_left phase1_step records s))).
  { induction records as [|item records IH]; intros s Hs; cbn; [exact Hs|].
    apply IH.
    destruct (phase1_step_cases s item) as [(-> & _) | (gps & lat & lon & Hp & _ & _ & -> & _)];
      [exact Hs|].
    apply Forall_app. split; [exact Hs|]. constructor; [|constructor]. eauto. }
  assert (H2 : forall records s, Forall P (gps_all s) ->
                 Forall P (gps_all (fold_left phase2_step records s))).
  { induction records as [|[pos record] records IH]; intros s Hs; cbn [fold_left]; [exact Hs|].
    apply IH.
    destruct (phase2_step_cases s pos record)
      as [((-> & _) & _) | (best & rest & _ & Hf & Hall & _)]; [exact Hs|].
    rewrite Hall. apply Forall_app. split; [exact Hs|]. constructor; [|constructor].
    apply (Hfound s record). rewrite Hf. left. reflexivity. }
  apply H2. unfold after_phase1.
  assert (H0 : Forall P (gps_all (fold_left phase1_step (find_records data) init_session))).
  { apply H1. constructor. }
  destruct (0 <? _); [|exact H0].
  destruct (update_region_center_fields
              (fold_left phase1_step (find_records data) init_session)) as (-> & _).
  exact H0.
Qed.

End Steps.

(** ** Validity of every stored sample (C9) *)

Section Validity.

Context {M : MathLib}.

#[local] Open Scope float_scope.

Lemma known_absolute_valid (record : list byte) (gps : Gps) :
  parse_known_gps_absolute record = Some gps -> valid_sample gps.
Proof.
  intros H. apply known_absolute_fields in H.
  destruct H as (_ & _ & lat & lon & Hlat & Hlon & Hv).
  exists lat, lon. split; [exact Hlat|]. split; [exact Hlon|].
  apply is_valid_coordinate_iff. exact Hv.
Qed.

Lemma discovered_valid (s : Session) (record : list byte) (type_hex : string)
    (pos : Z) (c : Candidate) :
  In c (find_gps_in_record s record) -> valid_sample (discovered_gps type_hex c pos).
Proof.
  intros H. apply in_find_gps_in_record in H. destruct H as (_ & _ & _ & Hv & _).
  exists (c_latitude c), (c_longitude c). cbn. split; [reflexivity|]. split; [reflexivity|].
  apply is_valid_coordinate_iff. exact Hv.
Qed.

(** C9.  Every sample that parsing appends to [gps_all] has its latitude in
    [-90, 90], its longitude in [-180, 180], and not both within 0.01 of
    zero.  In particular the pair (0.005, 0.005) is not valid, and no
    candidate of the heuristic locator has both coordinates within 0.01 of
    zero. *)
Theorem gps_all_samples_valid (data : list byte) :
  Forall valid_sample (gps_all (parse_all data)) /\
  is_valid_coordinate (Some 0.005) (Some 0.005) = false /\
  (forall (s : Session) (record : list byte) (c : Candidate),
     In c (find_gps_in_record s record) ->
     ((abs (c_latitude c) <? 0.01) && (abs (c_longitude c) <? 0.01)) = false).
Proof.
  split; [|split].
  - apply gps_all_invariant.
    + apply known_absolute_valid.
    + apply discovered_valid.
  - reflexivity.
  - intros s record c H. apply in_find_gps_in_record in H.
    destruct H as (_ & _ & _ & Hv & _).
    apply is_valid_coordinate_iff in Hv. apply Hv.
Qed.

End Validity.

(** ** Point export (C8) *)

Section PointExport.

Context {M : MathLib}.

#[local] Open Scope Z_scope.


End PointExport.

(** ** Refresh cadence of the region estimate (C1) *)

Section Cadence.

Context {M : MathLib}.

#[local] Open Scope Z_scope.

Lemma phase1_counts (records : list (Z * list byte)) :
  forall s,
    gps_discovered (phase1 records s) = gps_discovered s /\
    region_refreshes (phase1 records s) = region_refreshes s.
Proof.
  unfold phase1. induction records as [|item records IH]; intros s; cbn [fold_left];
    [auto|].
  destruct (IH (phase1_step s item)) as (-> & ->).
  destruct (phase1_step_cases s item)
    as [(_ & -> & _ & ->) | (gps & lat & lon & _ & _ & _ & _ & -> & _ & ->)]; auto.
Qed.

(** The second loop from a session with history length [H0]: if it discovers
    [d] points, the history grows by [d] and the region is refreshed exactly at
    the history lengths in [(H0, H0 + d]] that are multiples of 100. *)
Lemma phase2_counts (records : list (Z * list byte)) :
  forall s, exists d,
    0 <= d /\
    len (gps_discovered (phase2 records s)) = len (gps_discovered s) + d /\
    len (coord_history (phase2 records s)) = len (coord_history s) + d /\
    region_refreshes (phase2 records s) =
      region_refreshes s ++
      filter (fun n => n mod 100 =? 0)
        (range (len (coord_history s) + 1) (len (coord_history s) + d + 1)).
Proof.
  unfold phase2. induction records as [|[pos record] records IH]; intros s;
    cbn [fold_left].
  - exists 0. rewrite !Z.add_0_r, range_empty by lia. cbn. rewrite app_nil_r.
    repeat split; lia.
  - destruct (IH (phase2_step s (pos, record))) as (d & Hd & Hdisc & Hhist & Hlog).
    destruct (phase2_step_cases s pos record)
      as [((_ & Ed & Eh & Er) & _) | (best & rest & _ & _ & _ & Ed & Eh & Er)].
    + exists d. rewrite Hdisc, Hhist, Hlog, Ed, Eh, Er. repeat split; auto.
    + exists (d + 1).
      assert (Hlen : len (coord_history (phase2_step s (pos, record))) =
                     len (coord_history s) + 1).
      { rewrite Eh. unfold len. rewrite length_app. cbn. lia. }
      rewrite Hlen in Er.
      rewrite Hdisc, Hhist, Hlog, Er, Ed, Hlen.
      split; [lia|]. split; [unfold len; rewrite length_app; cbn; lia|].
      split; [lia|].
      rewrite <- app_assoc. f_equal.
      rewrite (range_cons (len (coord_history s) + 1)) by lia.
      cbn [filter].
      replace (len (coord_history s) + (d + 1) + 1)
        with (len (coord_history s) + 1 + d + 1) by lia.
      destruct ((len (coord_history s) + 1) mod 100 =? 0); reflexivity.
Qed.

(** C1, amended.  Parsing refreshes the region estimate once, right after
    the known-GPS phase, exactly when that phase left at least one coordinate
    in the history; during the heuristic phase it refreshes exactly when an
    appended discovered point brings the length of the whole coordinate
    history, known-GPS points included, to a multiple of 100. *)
Theorem region_refreshed_at_history_multiples_of_100 (data : list byte) :
  let known := phase1 (find_records data) init_session in
  let K := len (coord_history known) in
  let D := len (gps_discovered (parse_all data)) in
  len (coord_history (parse_all data)) = K + D /\
  region_refreshes (parse_all data) = refreshes_by_history_length K D.
Proof.
  cbv zeta. unfold parse_all, refreshes_by_history_length.
  set (known := phase1 (find_records data) init_session).
  destruct (phase1_counts (find_records data) init_session) as (Hd0 & Hr0).
  fold known in Hd0, Hr0. cbn in Hd0, Hr0.
  assert (Ha : gps_discovered (after_phase1 known) = [] /\
               coord_history (after_phase1 known) = coord_history known /\
               region_refreshes (after_phase1 known) =
                 if 0 <? len (coord_history known) then [len (coord_history known)] else []).
  { unfold after_phase1. destruct (0 <? len (coord_history known)) eqn:E; [|auto].
    destruct (update_region_center_fields known) as (_ & -> & -> & ->).
    rewrite Hr0, Hd0. repeat split.
    destruct (coord_history known); [discriminate E | reflexivity]. }
  destruct Ha as (Ad & Ah & Ar).
  destruct (phase2_counts (find_records data) (after_phase1 known))
    as (d & Hd & Hdisc & Hhist & Hlog).
  rewrite Ad in Hdisc. rewrite Ah in Hhist, Hlog. rewrite Ar in Hlog.
  cbn in Hdisc. rewrite Hdisc, Hhist, Hlog. split; reflexivity.
Qed.

(** C1 as stated fails: after 99 known-GPS points, the first discovered
    point already triggers a refresh (history length 100), where the claim
    expects none before 100 discovered points. *)
Lemma region_refreshed_after_one_discovered_point :
  let s := @parse_all Reference.exact_points_math Reference.log_99_known_1_unknown in
  len (gps_discovered s) = 1 /\
  region_refreshes s = [99; 100] /\
  region_refreshes s <> refreshes_by_discovered_count 99 (len (gps_discovered s)).
Proof. vm_compute. repeat split. discriminate. Qed.

End Cadence.

(** ** Lowest passing offset (C2, X23) *)

Section Lowest.

Context {M : MathLib}.

#[local] Open Scope Z_scope.

Lemma is_known_type_hex (b1 b2 b3 : byte) :
  is_known_type (hex [b1; b2; b3]) =
  (Byte.eqb b1 x23 && Byte.eqb b2 x52) || (Byte.eqb b1 x27 && Byte.eqb b2 x52).
Proof.
  destruct b1; try reflexivity; destruct b2; reflexivity.
Qed.

(** A record with an unknown tag and at least 4 bytes reaches the locator. *)
Lemma unknown_tag_reaches_locator (record : list byte) :
  unknown_tag record -> 4 <= len record -> reaches_locator record = true.
Proof.
  intros (H1 & H2 & H3) Hlen. unfold reaches_locator.
  destruct record as [|b0 [|b1 [|b2 [|b3 rest]]]];
    try (unfold len in Hlen; cbn [length] in Hlen; lia).
  replace (len (b0 :: b1 :: b2 :: b3 :: rest) <? 4) with false
    by (symmetry; apply Z.ltb_ge; exact Hlen).
  rewrite (Z.min_l 4 _ Hlen).
  change (slice (b0 :: b1 :: b2 :: b3 :: rest) 1 4) with [b1; b2; b3].
  change (slice (b0 :: b1 :: b2 :: b3 :: rest) 1 3) with [b1; b2].
  rewrite is_known_type_hex. unfold index in H1, H2, H3. cbn in H1, H2, H3.
  cbn [negb andb bytes_eqb KS].
  destruct (Byte.eqb b1 x23) eqn:E1, (Byte.eqb b2 x52) eqn:E2,
    (Byte.eqb b1 x27) eqn:E3, (Byte.eqb b1 x4b) eqn:E4, (Byte.eqb b2 x53) eqn:E5;
    try reflexivity;
    repeat match goal with
    | H : Byte.eqb _ _ = true |- _ => apply byte_dec_bl in H; subst
    end; try discriminate; exfalso; auto.
Qed.

(** The scan returns the candidate of the first offset that has one. *)
Lemma scan_range_first (self : Session) (record : list byte) (n : nat) :
  forall a b, Z.to_nat (b - a) = n ->
    (scan self record (range a b) = [] /\
     forall o, a <= o < b -> candidate_at self record o = None) \/
    (exists o c rest,
       a <= o < b /\
       (forall o', a <= o' < o -> candidate_at self record o' = None) /\
       candidate_at self record o = Some c /\
       scan self record (range a b) = c :: rest).
Proof.
  induction n as [|n IH]; intros a b Hn.
  - left. rewrite range_empty by lia. split; [reflexivity | intros; lia].
  - rewrite range_cons by lia. cbn [scan].
    destruct (candidate_at self record a) as [c|] eqn:Ea.
    + right. exists a, c, (scan self record (range (a + 1) b)).
      repeat split; auto; lia.
    + destruct (IH (a + 1) b ltac:(lia)) as [(Hs & Hnone) | (o & c & rest & Ho & Hlow & Hc & Hs)].
      * left. split; [exact Hs|]. intros o Ho.
        destruct (Z.eq_dec o a) as [->|]; [exact Ea | apply Hnone; lia].
      * right. exists o, c, rest. repeat split; auto; try lia.
        intros o' Ho'. destruct (Z.eq_dec o' a) as [->|]; [exact Ea | apply Hlow; lia].
Qed.

Lemma candidate_at_none (self : Session) (record : list byte) (o : Z) (lat lon : float) :
  candidate_at self record o = None -> ~ passes_filters self record o lat lon.
Proof.
  intros Hnone Hp.
  assert (H : candidate_at self record o =
              Some {| c_offset := o; c_latitude := lat; c_longitude := lon;
                      c_altitude := candidate_altitude record o |}).
  { apply candidate_at_iff. cbn. auto. }
  congruence.
Qed.

(** The head of the candidate list sits at the lowest offset of the scan
    range that the session keeps. *)
Lemma first_candidate_lowest (self : Session) (record : list byte)
    (best : Candidate) (rest : list Candidate) :
  find_gps_in_record self record = best :: rest ->
  lowest_passing_offset self record (c_offset best) (c_latitude best) (c_longitude best) /\
  c_altitude best = candidate_altitude record (c_offset best).
Proof.
  unfold find_gps_in_record. destruct (len record <? 12); [discriminate|].
  intros Hf.
  destruct (scan_range_first self record _ 4 (Z.min (len record - 8) 80) eq_refl)
    as [(Hs & _) | (o & c & rest' & Ho & Hlow & Hc & Hs)]; [congruence|].
  assert (best = c) by congruence. subst best.
  apply candidate_at_iff in Hc. destruct Hc as (Hp & Hoff & Halt).
  rewrite Hoff. split; [|exact Halt].
  split; [exact Ho|]. split; [exact Hp|].
  intros o' lat' lon' Ho'. apply candidate_at_none, Hlow, Ho'.
Qed.

(** X23.  For a record whose tag is neither a known-schema tag nor the
    telemetry tag, the second loop appends at most one discovered sample.
    Either the scan keeps no offset of [4, min(len-8, 80)) and nothing is
    appended; or exactly one sample is appended, decoded at the lowest offset
    of that range that the scan keeps.  The scan keeps an offset when the
    pair decodes there, is valid, is not noise, and the coherence check and
    (with more than 10 points in the history) the region check return true;
    an offset at which a check raises is skipped. *)
Theorem locator_takes_lowest_passing_offset (self : Session) (pos : Z)
    (record : list byte) :
  unknown_tag record ->
  (gps_discovered (phase2_step self (pos, record)) = gps_discovered self /\
   gps_all (phase2_step self (pos, record)) = gps_all self /\
   forall o lat lon, 4 <= o < Z.min (len record - 8) 80 ->
     ~ passes_filters self record o lat lon) \/
  (exists gps o lat lon,
     gps_discovered (phase2_step self (pos, record)) = gps_discovered self ++ [gps] /\
     gps_all (phase2_step self (pos, record)) = gps_all self ++ [gps] /\
     4 <= o < Z.min (len record - 8) 80 /\
     passes_filters self record o lat lon /\
     (forall o' lat' lon', 4 <= o' < o -> ~ passes_filters self record o' lat' lon') /\
     source gps = DISCOVERED /\ record_offset gps = o /\
     latitude gps = Some lat /\ longitude gps = Some lon /\
     record_pos gps = Some pos).
Proof.
  intros Htag.
  destruct (Z.ltb_spec (len record) 12) as [Hshort | Hlong].
  - left.
    assert (Hnil : find_gps_in_record self record = []).
    { unfold find_gps_in_record. replace (len record <? 12) with true
        by (symmetry; apply Z.ltb_lt; exact Hshort). reflexivity. }
    destruct (phase2_step_cases self pos record)
      as [((Ha & Hd & _) & _) | (best & rest & _ & Hf & _)]; [|congruence].
    repeat split; auto. intros; lia.
  - assert (Hreach : reaches_locator record = true)
      by (apply unknown_tag_reaches_locator; [exact Htag | lia]).
    assert (Hfind : find_gps_in_record self record =
                    scan self record (range 4 (Z.min (len record - 8) 80))).
    { unfold find_gps_in_record. replace (len record <? 12) with false
        by (symmetry; apply Z.ltb_ge; exact Hlong). reflexivity. }
    destruct (scan_range_first self record _ 4 (Z.min (len record - 8) 80) eq_refl)
      as [(Hs & Hnone) | (o & c & rest & Ho & Hlow & Hc & Hs)].
    + left.
      destruct (phase2_step_cases self pos record)
        as [((Ha & Hd & _) & _) | (best & rest & _ & Hf & _)]; [|congruence].
      repeat split; auto. intros o lat lon Ho. apply candidate_at_none, Hnone, Ho.
    + right.
      destruct (phase2_step_cases self pos record)
        as [(_ & Hno) | (best & rest' & _ & Hf & Ha & Hd & _)].
      { specialize (Hno Hreach). congruence. }
      assert (best = c) by congruence. subst best.
      apply candidate_at_iff in Hc. destruct Hc as (Hp & Hoff & _).
      eexists _, o, (c_latitude c), (c_longitude c).
      split; [exact Hd|]. split; [exact Ha|]. split; [exact Ho|].
      split; [exact Hp|].
      split; [intros o' lat' lon' Ho'; apply candidate_at_none, Hlow, Ho'|].
      cbn. repeat split; auto.
Qed.

End Lowest.

(** The two-pair record in the session that holds the two antipodal points:
    the hypothesis of X23 holds, and the appended sample is the pair at offset
    12.  The offset 4 is skipped, where the coherence check raises, and so are
    the offsets 5 to 11, where the pair is not valid. *)
Lemma locator_takes_lowest_passing_offset_witness :
  let self := @parse_all Reference.rounded_points_math Reference.log_antipodal_known in
  let record := Reference.two_pair_record in
  let self' := @phase2_step Reference.rounded_points_math self (72, record) in
  unknown_tag record /\
  exists gps lat lon,
    gps_discovered self' = gps_discovered self ++ [gps] /\
    gps_all self' = gps_all self ++ [gps] /\
    4 <= 12 < Z.min (len record - 8) 80 /\
    @passes_filters Reference.rounded_points_math self record 12 lat lon /\
    (forall o' lat' lon', 4 <= o' < 12 ->
       ~ @passes_filters Reference.rounded_points_math self record o' lat' lon') /\
    source gps = DISCOVERED /\ record_offset gps = 12 /\
    latitude gps = Some lat /\ longitude gps = Some lon /\
    record_pos gps = Some 72.
Proof.
  cbv zeta.
  assert (H : unknown_tag Reference.two_pair_record).
  { repeat split; intros [H _]; discriminate H. }
  split; [exact H|].
  destruct (@locator_takes_lowest_passing_offset Reference.rounded_points_math
              (@parse_all Reference.rounded_points_math Reference.log_antipodal_known)
              72 Reference.two_pair_record H)
    as [(Hd & _) | (gps & o & lat & lon & Hd & Ha & Ho & Hp & Hlow & Hs & Hoff & Hrest)].
  - exfalso. apply (f_equal (@length Gps)) in Hd. vm_compute in Hd. discriminate Hd.
  - assert (Eo : o = 12).
    { pose proof (f_equal (map record_offset) Hd) as E.
      rewrite map_app in E. cbn [map] in E. rewrite Hoff in E.
      vm_compute in E. injection E as E. symmetry. exact E. }
    rewrite Eo in Ho, Hp, Hlow, Hoff. exists gps, lat, lon.
    split; [exact Hd|]. split; [exact Ha|]. split; [exact Ho|].
    split; [exact Hp|]. split; [exact Hlow|]. split; [exact Hs|].
    split; [exact Hoff | exact Hrest].
Defined.

(** C2 fails on the code.  In the log of the two antipodal absolute-GPS
    records followed by the two-pair record, the second loop scans the third
    record in the session whose history is (8, 30), (-8, -150).  The pair at
    offset 4 of that record is (-8, -150): it decodes, it is valid, it is not
    noise, it lies 0 km from the latest history point, so its minimum distance
    to the history is below 50 km, and with 2 points in the history the
    region filter does not apply.  It passes every filter the claim names
    and sits at the lowest offset; but the coherence check raises on it, the
    scan skips it, and the sample that parsing appends comes from offset 12. *)
Theorem locator_skips_offset_on_latest_point :
  find_records Reference.log_antipodal =
    find_records Reference.log_antipodal_known ++ [(72, Reference.two_pair_record)] /\
  @parse_all Reference.rounded_points_math Reference.log_antipodal =
    @phase2_step Reference.rounded_points_math
      (@parse_all Reference.rounded_points_math Reference.log_antipodal_known)
      (72, Reference.two_pair_record) /\
  coord_history (@parse_all Reference.rounded_points_math Reference.log_antipodal_known) =
    [(8, 30); (-8, -150)]%float /\
  unknown_tag Reference.two_pair_record /\
  unpack_f (slice Reference.two_pair_record 4 8) = Ret (-8)%float /\
  unpack_f (slice Reference.two_pair_record 8 12) = Ret (-150)%float /\
  @is_valid_coordinate (Some (-8)%float) (Some (-150)%float) = true /\
  ((abs (-8) <? 1.0) && (abs (-150) <? 1.0))%float = false /\
  @haversine_km Reference.rounded_points_math (-8) (-150) (-8) (-150) = Ret 0%float /\
  @is_geographically_coherent Reference.rounded_points_math
    (@parse_all Reference.rounded_points_math Reference.log_antipodal_known)
    (-8) (-150) 50 = Raise /\
  map record_offset
    (gps_discovered (@parse_all Reference.rounded_points_math Reference.log_antipodal)) = [12] /\
  map latitude
    (gps_discovered (@parse_all Reference.rounded_points_math Reference.log_antipodal)) =
    [Some (-8.125)%float].
Proof.
  assert (H : unknown_tag Reference.two_pair_record).
  { repeat split; intros [H _]; discriminate H. }
  repeat split; try apply H; vm_compute; reflexivity.
Qed.

(** ** Region centre (C6) *)

Lemma insert_perm (x : float) (l : list float) : Permutation (Py.insert x l) (x :: l).
Proof.
  induction l as [|y t IH]; cbn; [reflexivity|].
  destruct (x <? y)%float; [reflexivity|].
  rewrite IH. apply perm_swap.
Qed.

Lemma sorted_perm (l : list float) : Permutation (sorted l) l.
Proof.
  unfold sorted.
  assert (H : forall acc, Permutation (fold_left (fun acc x => Py.insert x acc) l acc)
                            (acc ++ l)).
  { induction l as [|x t IH]; intros acc; cbn.
    - rewrite app_nil_r. reflexivity.
    - rewrite IH, insert_perm. cbn. apply Permutation_middle. }
  apply (H []).
Qed.

Lemma middle_upper_median (l : list float) :
  middle (sorted l) = upper_median l.
Proof.
  unfold middle, upper_median, len.
  rewrite (Permutation_length (sorted_perm l)).
  f_equal. rewrite <- (Nat2Z.inj_div _ 2). apply Nat2Z.id.
Qed.

Lemma upper_median_in (l : list float) : l <> [] -> In (upper_median l) l.
Proof.
  intros Hne. unfold upper_median.
  apply (Permutation_in _ (sorted_perm l)). apply nth_In.
  rewrite (Permutation_length (sorted_perm l)).
  destruct l; [congruence|]. apply Nat.div_lt; cbn; lia.
Qed.

(** The index [len // 2] is the upper of the two middle positions of an
    even-length list and the middle position of an odd-length one; the lower
    median sits one position before it when the length is even. *)
Lemma median_indices (l : list float) (k : nat) :
  (length l = (2 * (k + 1))%nat ->
   upper_median l = nth (k + 1) (sorted l) nan /\ lower_median l = nth k (sorted l) nan) /\
  (length l = (2 * k + 1)%nat ->
   upper_median l = nth k (sorted l) nan /\ lower_median l = nth k (sorted l) nan).
Proof.
  unfold upper_median, lower_median. split; intros ->.
  - replace (2 * (k + 1) / 2)%nat with (k + 1)%nat
      by (apply Nat.div_unique with 0%nat; lia).
    replace ((2 * (k + 1) - 1) / 2)%nat with k
      by (apply Nat.div_unique with 1%nat; lia).
    auto.
  - replace ((2 * k + 1) / 2)%nat with k
      by (apply Nat.div_unique with 1%nat; lia).
    replace ((2 * k + 1 - 1) / 2)%nat with k
      by (apply Nat.div_unique with 0%nat; lia).
    auto.
Qed.

(** C6, amended.  For every non-empty coordinate history,
    [update_region_center] stores the per-axis median of all accumulated
    latitudes and of all accumulated longitudes, where the median of a sorted
    list is its element at index [len // 2]: for an even length, the upper of
    the two middle elements.  Each stored component is one of the accumulated
    values. *)
Theorem region_center_is_upper_median (self : Session) :
  coord_history self <> [] ->
  region_center (update_region_center self) =
    Some (upper_median (map fst (coord_history self)),
          upper_median (map snd (coord_history self))) /\
  In (upper_median (map fst (coord_history self))) (map fst (coord_history self)) /\
  In (upper_median (map snd (coord_history self))) (map snd (coord_history self)).
Proof.
  intros Hne. split.
  - unfold update_region_center. destruct (coord_history self) as [|p h]; [congruence|].
    cbn [region_center]. rewrite !middle_upper_median. reflexivity.
  - split; apply upper_median_in; destruct (coord_history self); cbn; congruence.
Qed.

(** A history of two points: the hypothesis of C6 holds and the stored
    centre is its upper median. *)
Lemma region_center_is_upper_median_witness :
  let self :=
    {| gps_known := []; gps_discovered := []; gps_all := []; telemetry := [];
       coord_history := [(1, 10); (2, 20)]%float;
       region_center := None; region_refreshes := [] |} in
  coord_history self <> [] /\
  region_center (update_region_center self) =
    Some (upper_median (map fst (coord_history self)),
          upper_median (map snd (coord_history self))) /\
  In (upper_median (map fst (coord_history self))) (map fst (coord_history self)) /\
  In (upper_median (map snd (coord_history self))) (map snd (coord_history self)).
Proof.
  cbv zeta.
  assert (H : [(1, 10); (2, 20)]%float <> []) by discriminate.
  split; [exact H|].
  exact (region_center_is_upper_median
           {| gps_known := []; gps_discovered := []; gps_all := []; telemetry := [];
              coord_history := [(1, 10); (2, 20)]%float;
              region_center := None; region_refreshes := [] |} H).
Defined.

(** C6 as stated fails: for the history (1, 10), (2, 20) the stored centre is
    (2, 20), while the lower medians are 1 and 10. *)
Lemma region_center_is_not_lower_median :
  let self :=
    {| gps_known := []; gps_discovered := []; gps_all := []; telemetry := [];
       coord_history := [(1, 10); (2, 20)]%float;
       region_center := None; region_refreshes := [] |} in
  coord_history self <> [] /\
  region_center (update_region_center self) = Some (2, 20)%float /\
  region_center (update_region_center self) <>
    Some (lower_median (map fst (coord_history self)),
          lower_median (map snd (coord_history self))).
Proof.
  cbv zeta. split; [discriminate|]. split; [reflexivity|].
  intros H.
  apply (f_equal (fun c => match c with
                           | Some (x, _) => (x =? 1)%float
                           | None => false
                           end)) in H.
  vm_compute in H. discriminate.
Qed.

(** ** Empty coordinate set at export time (C10) *)

Section EmptyExport.

Context {M : MathLib}.

(** C10.  When no entry of [gps_all] carries a latitude and a longitude,
    the trajectory exporter prints its opening line and the no-coordinates
    diagnostic and returns: its output holds no write of the trajectory
    file. *)
Theorem export_without_coordinates_writes_nothing (self : Session) (filename : string) :
  trajectory_coords (gps_all self) = [] ->
  export_trajectory_kml self filename =
    [Print (MsgCreateKml filename); Print MsgNoCoords] /\
  forall f doc, ~ In (WriteKml f doc) (export_trajectory_kml self filename).
Proof.
  intros H. unfold export_trajectory_kml. rewrite H. split; [reflexivity|].
  intros f doc [E | [E | []]]; discriminate E.
Qed.

End EmptyExport.

(** A fresh session has no coordinates: the hypothesis of C10 holds. *)
Lemma export_without_coordinates_writes_nothing_witness :
  trajectory_coords (gps_all init_session) = [] /\
  @export_trajectory_kml Reference.exact_points_math init_session "trajectory.kml" =
    [Print (MsgCreateKml "trajectory.kml"); Print MsgNoCoords] /\
  forall f doc,
    ~ In (WriteKml f doc)
        (@export_trajectory_kml Reference.exact_points_math init_session "trajectory.kml").
Proof.
  split; [reflexivity|].
  exact (@export_without_coordinates_writes_nothing Reference.exact_points_math
           init_session "trajectory.kml" eq_refl).
Defined.

(** ** Altitude interpolation (C4, C5) *)

(** The backward search of point [i] reads the indices from [i-1] down to
    [max(1, i-19)]: never index 0, and never a point 20 positions away. *)
Lemma backward_window (i j : Z) :
  In j (range_down (i - 1) (Z.max 0 (i - 20))) <-> Z.max 1 (i - 19) <= j <= i - 1.
Proof. rewrite in_range_down. lia. Qed.

(** The forward search of point [i] reads the indices from [i+1] up to
    [min(n-1, i+19)]. *)
Lemma forward_window (n i j : Z) :
  In j (range (i + 1) (Z.min n (i + 20))) <-> i + 1 <= j <= Z.min (n - 1) (i + 19).
Proof. rewrite in_range. lia. Qed.

(** C4 fails on the code.  A trajectory of two points with altitudes 150
    and 0: the second point has a positive neighbour one position back, yet
    its altitude becomes 100.0, because the backward search stops before
    index 0.  The same happens end to end on a log of two absolute-GPS
    records. *)
Theorem interpolation_ignores_first_point :
  interpolate_altitude
    [(37.62, 55.75, Some 150); (37.63, 55.76, Some 0)]%float =
    [(37.62, 55.75, Some 150); (37.63, 55.76, Some 100)]%float /\
  exists doc,
    In (WriteKml "trajectory.kml" doc)
       (@export_trajectory_kml Reference.exact_points_math
          (@parse_all Reference.exact_points_math Reference.log_altitude_150_0)
          "trajectory.kml") /\
    map snd (kml_path doc) = [150; 100]%float.
Proof.
  split; [vm_compute; reflexivity|].
  eexists. split.
  - vm_compute. right. right. left. reflexivity.
  - vm_compute. reflexivity.
Qed.

(** C5 fails on the code.  An absolute-GPS record whose altitude field
    holds NaN is accepted (only latitude and longitude are validated), and
    interpolation keeps it, since [NaN <= 0] is false: the exported trajectory
    carries an altitude that is not greater than 0. *)
Theorem exported_altitude_can_be_nan :
  exists doc,
    In (WriteKml "trajectory.kml" doc)
       (@export_trajectory_kml Reference.exact_points_math
          (@parse_all Reference.exact_points_math Reference.log_altitude_150_nan)
          "trajectory.kml") /\
    map (fun p => (0 <? snd p)%float) (kml_path doc) = [true; false] /\
    map (fun p => is_nan (snd p)) (kml_path doc) = [false; true].
Proof.
  eexists. split.
  - vm_compute. right. right. left. reflexivity.
  - vm_compute. split; reflexivity.
Qed.

(** A search loop returns a positive altitude stored at one of its indices. *)
Lemma search_altitude_found (coords : list Coord) (js : list Z) (a : float) :
  search_altitude coords js = Some a ->
  (0 <? a)%float = true /\
  exists j c, In j js /\ index coords j = Some c /\ coord_alt c = Some a.
Proof.
  induction js as [|j rest IH]; cbn; [discriminate|].
  unfold has_altitude. destruct (index coords j) as [c|] eqn:Ej.
  - destruct (coord_alt c) as [v|] eqn:Ev; cbn.
    + destruct (truthy v && (0 <? v)%float) eqn:Et.
      * intros [= <-]. apply andb_prop in Et. destruct Et as [_ Hpos].
        split; [exact Hpos|]. exists j, c. auto.
      * intros H. destruct (IH H) as (Hpos & j' & c' & Hin & Hc).
        split; [exact Hpos|]. exists j', c'. auto.
    + intros H. destruct (IH H) as (Hpos & j' & c' & Hin & Hc).
      split; [exact Hpos|]. exists j', c'. auto.
  - intros H. destruct (IH H) as (Hpos & j' & c' & Hin & Hc).
    split; [exact Hpos|]. exists j', c'. auto.
Qed.

Lemma positive_truthy (a : float) : (0 <? a)%float = true -> truthy a = true.
Proof.
  intros H. unfold truthy. destruct (a =? 0)%float eqn:E; [|reflexivity].
  exfalso. rewrite FloatAxioms.ltb_spec in H. rewrite FloatAxioms.eqb_spec in E.
  unfold SFltb in H. unfold SFeqb in E.
  change (Prim2SF 0) with (S754_zero false) in *.
  destruct (Prim2SF a) as [[]|[]| |[] ? ?]; cbn in *; discriminate.
Qed.

(** What the interpolation pass does to one point: a point whose altitude
    is neither missing nor [<= 0] is kept; otherwise the new altitude is the
    mean of the altitudes found by both searches, the altitude found by the
    only successful search, or 100.0 when both searches fail. *)
Lemma interpolate_point_cases (coords : list Coord) (i : Z) (lon lat : float)
    (alt : option float) :
  let prev_alt := search_altitude coords (range_down (i - 1) (Z.max 0 (i - 20))) in
  let next_alt := search_altitude coords (range (i + 1) (Z.min (len coords) (i + 20))) in
  interpolate_point coords i (lon, lat, alt) =
    (lon, lat,
     if needs_altitude alt then
       match prev_alt, next_alt with
       | Some p, Some n => Some ((p + n) / 2)%float
       | Some p, None => Some p
       | None, Some n => Some n
       | None, None => Some 100%float
       end
     else alt).
Proof.
  cbv zeta. unfold interpolate_point.
  destruct (needs_altitude alt); [|reflexivity].
  destruct (search_altitude coords (range_down _ _)) as [p|] eqn:Ep;
    destruct (search_altitude coords (range _ _)) as [n|] eqn:En; try reflexivity.
  - apply search_altitude_found in Ep, En.
    rewrite (positive_truthy p), (positive_truthy n) by tauto. reflexivity.
  - apply search_altitude_found in Ep. rewrite (positive_truthy p) by tauto. reflexivity.
  - apply search_altitude_found in En. rewrite (positive_truthy n) by tauto. reflexivity.
Qed.

Lemma interpolate_from_shape (coords : list Coord) (cs : list Coord) :
  forall i,
    Forall2 (fun c r => fst r = fst c /\ coord_alt r <> None)
      cs (map (fun ip => interpolate_point coords (fst ip) (snd ip)) (enumerate_from i cs)).
Proof.
  induction cs as [|[[lon lat] alt] cs IH]; intros i; cbn [enumerate_from map];
    constructor; [|apply IH].
  cbn [fst snd]. rewrite interpolate_point_cases. cbn [fst].
  split; [reflexivity|]. unfold coord_alt. cbn [snd].
  unfold needs_altitude. destruct alt as [a|].
  - destruct (a <=? 0)%float; [|discriminate].
    destruct (search_altitude _ _), (search_altitude _ _); discriminate.
  - destruct (search_altitude _ _), (search_altitude _ _); discriminate.
Qed.

(** X1.  The interpolation pass keeps the number, the order and the
    horizontal position of the points, and leaves no point without an
    altitude. *)
Lemma interpolate_altitude_keeps_points (coords : list Coord) :
  Forall2 (fun c r => fst r = fst c /\ coord_alt r <> None)
    coords (interpolate_altitude coords).
Proof. apply interpolate_from_shape. Qed.

(** * Further properties *)

(** ** Record framer *)

Lemma is_marker_true (b : byte) : is_marker b = true <-> b = x7e.
Proof.
  unfold is_marker. split; [apply byte_dec_bl | intros ->; reflexivity].
Qed.

Lemma frame_shape (data : list byte) :
  forall pos,
    data = fst (frame pos data) ++ concat (map snd (snd (frame pos data))) /\
    Forall (fun b => is_marker b = false) (fst (frame pos data)) /\
    Forall (fun item => well_framed (snd item)) (snd (frame pos data)) /\
    tiled (pos + len (fst (frame pos data))) (snd (frame pos data)).
Proof.
  induction data as [|b rest IH]; intros pos; cbn [frame].
  - cbn. repeat split; constructor.
  - specialize (IH (pos + 1)).
    destruct (frame (pos + 1) rest) as [pre recs]. cbn [fst snd] in IH.
    destruct IH as (Hdata & Hpre & Hrecs & Htiled).
    destruct (is_marker b) eqn:Eb; cbn [fst snd map concat].
    + apply is_marker_true in Eb. subst b. repeat split.
      * cbn. f_equal. exact Hdata.
      * constructor.
      * constructor; [|exact Hrecs]. exists pre. auto.
      * unfold len. cbn [length]. lia.
      * unfold len in *. cbn [length].
        replace (pos + Z.of_nat 0 + Z.of_nat (S (length pre)))
          with (pos + 1 + Z.of_nat (length pre)) by lia.
        exact Htiled.
    + repeat split.
      * cbn. f_equal. exact Hdata.
      * constructor; assumption.
      * exact Hrecs.
      * unfold len in *. cbn [length].
        replace (pos + Z.of_nat (S (length pre)))
          with (pos + 1 + Z.of_nat (length pre)) by lia.
        exact Htiled.
Qed.

Lemma slice_app_middle {A : Type} (pre r post : list A) :
  slice (pre ++ r ++ post) (len pre) (len pre + len r) = r.
Proof.
  unfold slice, len.
  rewrite Nat2Z.id.
  replace (Z.to_nat (Z.of_nat (length pre) + Z.of_nat (length r) - Z.of_nat (length pre)))
    with (length r) by lia.
  rewrite skipn_app, skipn_all, Nat.sub_diag. cbn [skipn app].
  rewrite firstn_app, firstn_all, Nat.sub_diag. cbn. apply app_nil_r.
Qed.

Lemma tiled_slices (records : list (Z * list byte)) :
  forall (pre : list byte) (data : list byte),
    data = pre ++ concat (map snd records) ->
    tiled (len pre) records ->
    Forall (fun item => 0 <= fst item /\
                        slice data (fst item) (fst item + len (snd item)) = snd item)
      records.
Proof.
  induction records as [|[q r] rest IH]; intros pre data Hdata Ht; [constructor|].
  cbn [tiled] in Ht. destruct Ht as (-> & Ht). constructor.
  - cbn [fst snd]. split; [unfold len; lia|].
    rewrite Hdata. cbn [map concat snd]. apply slice_app_middle.
  - apply (IH (pre ++ r)).
    + rewrite Hdata. cbn [map concat snd]. rewrite app_assoc. reflexivity.
    + unfold len in *. rewrite length_app. rewrite Nat2Z.inj_add. exact Ht.
Qed.

(** X2.  The framer loses nothing and invents nothing: the file is the
    bytes before its first marker followed by the records in order; every
    record is the marker byte followed by bytes that are not the marker; the
    records tile the file without gap or overlap; and each record is the
    slice of the file that begins at its recorded position. *)
Theorem find_records_partitions_file (data : list byte) :
  exists junk,
    data = junk ++ concat (map snd (find_records data)) /\
    Forall (fun b => is_marker b = false) junk /\
    Forall (fun item => well_framed (snd item)) (find_records data) /\
    tiled (len junk) (find_records data) /\
    Forall (fun item => 0 <= fst item /\
                        slice data (fst item) (fst item + len (snd item)) = snd item)
      (find_records data).
Proof.
  unfold find_records.
  destruct (frame_shape data 0) as (Hdata & Hjunk & Hrecs & Ht).
  exists (fst (frame 0 data)). cbn [Z.add] in Ht.
  repeat split; auto.
  apply (tiled_slices _ (fst (frame 0 data))); assumption.
Qed.

(** The leading bytes that [frame] sets aside reach up to the first marker,
    which is where [bytes.find] stops. *)
Lemma frame_junk (l : list byte) :
  forall pos,
    firstn (length (fst (frame pos l))) l = fst (frame pos l) /\
    snd (frame (pos + len (fst (frame pos l))) (skipn (length (fst (frame pos l))) l)) =
      snd (frame pos l) /\
    ((find_marker pos l = -1 /\ skipn (length (fst (frame pos l))) l = []) \/
     (find_marker pos l = pos + len (fst (frame pos l)))).
Proof.
  induction l as [|b t IH]; intros pos; cbn [frame find_marker].
  - cbn. auto.
  - specialize (IH (pos + 1)).
    destruct (frame (pos + 1) t) as [pre recs] eqn:Ef. cbn [fst snd] in IH.
    destruct IH as (Hfirst & Hsnd & Hfind).
    destruct (is_marker b) eqn:Eb; cbn [fst snd length firstn skipn].
    + split; [reflexivity|]. split.
      * unfold len. cbn [length]. rewrite Z.add_0_r. cbn [frame].
        rewrite Ef, Eb. reflexivity.
      * right. unfold len. cbn [length]. lia.
    + split; [f_equal; exact Hfirst|]. split.
      * unfold len in *. cbn [length].
        replace (pos + Z.of_nat (S (length pre)))
          with (pos + 1 + Z.of_nat (length pre)) by lia.
        exact Hsnd.
      * unfold len in *. cbn [length].
        destruct Hfind as [(Hf & Hs) | Hf]; [left; auto | right; lia].
Qed.

Lemma index_app_here {A : Type} (pre : list A) (b : A) (t : list A) :
  index (pre ++ b :: t) (len pre) = Some b.
Proof.
  unfold index, len.
  replace (Z.of_nat (length pre) <? 0) with false by (symmetry; apply Z.ltb_ge; lia).
  rewrite Nat2Z.id, nth_error_app2 by lia. rewrite Nat.sub_diag. reflexivity.
Qed.

Lemma find_records_loop_frame (fuel : nat) (data : list byte) :
  forall pre suf records,
    data = pre ++ suf -> (length suf < fuel)%nat ->
    find_records_loop fuel data (len pre) records =
    Some (records ++ snd (frame (len pre) suf)).
Proof.
  induction fuel as [|fuel IH]; intros pre suf records Hdata Hfuel; [lia|].
  - cbn [find_records_loop]. destruct suf as [|b t].
    + replace (len pre <? len data) with false
        by (symmetry; apply Z.ltb_ge; subst data; rewrite app_nil_r; lia).
      cbn. rewrite app_nil_r. reflexivity.
    + assert (Hlen : len data = len pre + 1 + len t).
      { subst data. unfold len. rewrite length_app. cbn [length]. lia. }
      replace (len pre <? len data) with true
        by (symmetry; apply Z.ltb_lt; unfold len in *; lia).
      unfold byte_at_is. rewrite Hdata at 1. rewrite index_app_here.
      cbn [frame]. destruct (frame (len pre + 1) t) as [run recs] eqn:Ef.
      fold (is_marker b). destruct (is_marker b) eqn:Eb; cbn [snd].
      * destruct (frame_junk t (len pre + 1)) as (Hfirst & Hsnd & Hfind).
        rewrite Ef in Hfirst, Hsnd, Hfind. cbn [fst snd] in Hfirst, Hsnd, Hfind.
        assert (Ht : t = run ++ skipn (length run) t).
        { rewrite <- Hfirst at 1. symmetry. apply firstn_skipn. }
        assert (Hskip : skipn (Z.to_nat (len pre + 1)) data = t).
        { subst data. unfold len.
          replace (Z.to_nat (Z.of_nat (length pre) + 1)) with (length pre + 1)%nat by lia.
          rewrite skipn_app.
          replace (length pre + 1 - length pre)%nat with 1%nat by lia.
          rewrite skipn_all2 by lia. reflexivity. }
        assert (Hnext : (if bytes_find data (len pre + 1) =? -1 then len data
                         else bytes_find data (len pre + 1)) = len pre + 1 + len run).
        { unfold bytes_find. rewrite Hskip.
          destruct Hfind as [(Hf & Hs) | Hf]; rewrite Hf.
          - cbn. rewrite Hlen. f_equal.
            rewrite Ht, Hs, app_nil_r at 1. reflexivity.
          - replace (len pre + 1 + len run =? -1) with false
              by (symmetry; apply Z.eqb_neq; unfold len; lia).
            reflexivity. }
        cbv zeta. rewrite Hnext.
        assert (Hdata' : data = (pre ++ b :: run) ++ skipn (length run) t).
        { rewrite Hdata, <- app_assoc. cbn. rewrite <- Ht. reflexivity. }
        assert (Hlen' : len (pre ++ b :: run) = len pre + 1 + len run).
        { unfold len. rewrite length_app. cbn [length]. lia. }
        assert (Hslice : slice data (len pre) (len pre + 1 + len run) = b :: run).
        { rewrite Hdata, Ht.
          change (pre ++ b :: run ++ skipn (length run) t)
            with (pre ++ (b :: run) ++ skipn (length run) t).
          replace (len pre + 1 + len run) with (len pre + len (b :: run))
            by (unfold len; cbn [length]; lia).
          apply slice_app_middle. }
        rewrite Hslice, <- Hlen'.
        rewrite (IH (pre ++ b :: run) (skipn (length run) t) _ Hdata').
        -- rewrite Hlen', Hsnd, <- app_assoc. reflexivity.
        -- rewrite length_skipn. cbn [length] in Hfuel. lia.
      * replace (len pre + 1) with (len (pre ++ [b]))
          by (unfold len; rewrite length_app; cbn [length]; lia).
        rewrite (IH (pre ++ [b]) t records).
        -- replace (len (pre ++ [b])) with (len pre + 1)
             by (unfold len; rewrite length_app; cbn [length]; lia).
           rewrite Ef. reflexivity.
        -- rewrite Hdata, <- app_assoc. reflexivity.
        -- cbn [length] in Hfuel. lia.
Qed.

(** The body of the loop runs between 0 and [len(data)] times: with fuel for
    [n] tests of the loop condition, the loop started on [n] bytes that hold
    no marker is still running when the fuel is spent. *)
Lemma find_records_loop_needs_fuel (data : list byte) :
  Forall (fun b => is_marker b = false) data ->
  find_records_loop (length data) data 0 [] = None.
Proof.
  intros Hall.
  assert (H : forall suf pre records,
            data = pre ++ suf -> Forall (fun b => is_marker b = false) suf ->
            find_records_loop (length suf) data (len pre) records = None).
  { induction suf as [|b t IH]; intros pre records Hdata Hsuf; [reflexivity|].
    cbn [length find_records_loop].
    replace (len pre <? len data) with true
      by (symmetry; apply Z.ltb_lt; subst data; unfold len; rewrite length_app;
          cbn [length]; lia).
    unfold byte_at_is. rewrite Hdata at 1. rewrite index_app_here.
    fold (is_marker b). rewrite (Forall_inv Hsuf).
    replace (len pre + 1) with (len (pre ++ [b]))
      by (unfold len; rewrite length_app; cbn [length]; lia).
    apply IH; [rewrite Hdata, <- app_assoc; reflexivity|].
    exact (Forall_inv_tail Hsuf). }
  apply (H data [] [] eq_refl Hall).
Qed.

(** X3.  The [while] loop of [find_records] terminates on every file: it
    finds its condition false after at most [len(data)] runs of its body, that
    is, at the latest at the test number [len(data) + 1], and it then returns
    the list of records of [find_records] as modelled.  The bound is reached:
    on a file without marker, [len(data)] tests do not end the loop. *)
Theorem find_records_loop_terminates (data : list byte) (extra : nat) :
  find_records_loop (S (length data) + extra) data 0 [] = Some (find_records data) /\
  (Forall (fun b => is_marker b = false) data ->
   find_records_loop (length data) data 0 [] = None).
Proof.
  split; [|apply find_records_loop_needs_fuel].
  unfold find_records.
  apply (find_records_loop_frame (S (length data) + extra) data [] data [] eq_refl).
  lia.
Qed.

(** A file of three bytes without marker: four tests of the loop condition
    end the loop, with no record; three do not. *)
Lemma find_records_loop_terminates_witness :
  let data := [x00; x01; x02] in
  Forall (fun b => is_marker b = false) data /\
  find_records_loop 4 data 0 [] = Some (find_records data) /\
  find_records data = [] /\
  find_records_loop 3 data 0 [] = None.
Proof.
  cbv zeta.
  assert (H : Forall (fun b => is_marker b = false) [x00; x01; x02])
    by (repeat constructor).
  destruct (find_records_loop_terminates [x00; x01; x02] 0) as (Hsome & Hnone).
  split; [exact H|]. split; [exact Hsome|]. split; [reflexivity|].
  exact (Hnone H).
Defined.

(** ** How the sequences of a session hang together *)

Section Consistency.

Context {M : MathLib}.

#[local] Open Scope Z_scope.

Lemma trajectory_coords_app (l : list Gps) (g : Gps) (lat lon : float) :
  latitude g = Some lat -> longitude g = Some lon ->
  trajectory_coords (l ++ [g]) = trajectory_coords l ++ [(lon, lat, altitude g)].
Proof.
  intros Hlat Hlon. induction l as [|h t IH]; cbn.
  - rewrite Hlat, Hlon. reflexivity.
  - destruct (latitude h), (longitude h); rewrite IH; reflexivity.
Qed.

Lemma update_region_center_keeps (s : Session) :
  gps_known (update_region_center s) = gps_known s /\
  gps_discovered (update_region_center s) = gps_discovered s /\
  gps_all (update_region_center s) = gps_all s /\
  telemetry (update_region_center s) = telemetry s /\
  coord_history (update_region_center s) = coord_history s.
Proof.
  unfold update_region_center. destruct (coord_history s) eqn:E; cbn; auto.
Qed.

Lemma consistent_update_region_center (s : Session) :
  consistent s -> consistent (update_region_center s).
Proof.
  unfold consistent.
  destruct (update_region_center_keeps s) as (-> & -> & -> & _ & ->). auto.
Qed.

Lemma consistent_append (s s' : Session) (g : Gps) (lat lon : float) :
  consistent s ->
  latitude g = Some lat -> longitude g = Some lon ->
  gps_all s' = gps_all s ++ [g] ->
  coord_history s' = coord_history s ++ [(lat, lon)] ->
  filter is_absolute (gps_known s') ++ gps_discovered s' =
    (filter is_absolute (gps_known s) ++ gps_discovered s) ++ [g] ->
  consistent s'.
Proof.
  intros (Hall & Hlen & Hhist) Hlat Hlon Ha Hh Hk. unfold consistent.
  rewrite Ha, Hh, Hk, (trajectory_coords_app _ _ _ _ Hlat Hlon).
  split; [rewrite <- Hall; reflexivity|]. split.
  - rewrite !length_app, Hlen. reflexivity.
  - rewrite map_app, Hhist. reflexivity.
Qed.

(** What a decoded relative-position sample holds. *)
Lemma known_relative_fields (record : list byte) (gps : Gps) :
  parse_known_gps_relative record = Some gps ->
  source gps = KNOWN_RELATIVE /\ latitude gps = None /\ longitude gps = None /\
  record_offset gps = 20.
Proof.
  unfold parse_known_gps_relative.
  destruct (len record <? 40); [discriminate|].
  destruct (negb _); [discriminate|].
  destruct (unpack_I _); cbn [bind catch]; [|discriminate].
  destruct (unpack_f (slice record 20 24)); cbn [bind catch]; [|discriminate].
  destruct (unpack_f (slice record 24 28)); cbn [bind catch]; [|discriminate].
  destruct (unpack_f (slice record 28 32)); cbn [bind catch]; [|discriminate].
  intros [= <-]. cbn. auto.
Qed.

Lemma phase1_step_consistent (s : Session) (item : Z * list byte) :
  gps_discovered s = [] -> consistent s ->
  gps_discovered (phase1_step s item) = [] /\ consistent (phase1_step s item).
Proof.
  intros Hd Hc. destruct item as [pos record]. unfold phase1_step.
  destruct (len record <? 4); [auto|].
  destruct (byte_at_is record 1 x23 && byte_at_is record 2 x52).
  - destruct (parse_known_gps_absolute record) as [gps|] eqn:Ep; [|auto].
    destruct (known_absolute_fields _ _ Ep) as (Hs & _ & lat & lon & Hlat & Hlon & _).
    rewrite Hlat, Hlon. split; [exact Hd|].
    apply (consistent_append s _ gps lat lon Hc Hlat Hlon); try reflexivity.
    cbn. rewrite Hd, !app_nil_r, filter_app. cbn. unfold is_absolute at 2.
    rewrite Hs. reflexivity.
  - destruct (byte_at_is record 1 x27 && byte_at_is record 2 x52); [|auto].
    destruct (parse_known_gps_relative record) as [gps|] eqn:Ep; [|auto].
    split; [exact Hd|].
    destruct (known_relative_fields _ _ Ep) as (Hs & _).
    destruct Hc as (Hall & Hlen & Hhist). unfold consistent. cbn.
    rewrite filter_app. cbn. unfold is_absolute at 2. rewrite Hs, app_nil_r. auto.
Qed.

Lemma phase2_step_consistent (s : Session) (item : Z * list byte) :
  consistent s ->
  gps_known (phase2_step s item) = gps_known s /\ consistent (phase2_step s item).
Proof.
  intros Hc. destruct item as [pos record]. unfold phase2_step.
  destruct (len record <? 4); [auto|].
  destruct (is_known_type _); [auto|].
  destruct (bytes_eqb (slice record 1 3) KS).
  { destruct (parse_ks_telemetry record); auto. }
  destruct (find_gps_in_record s record) as [|best rest]; [auto|].
  set (s1 := append_discovered s _ _ _).
  assert (H1 : gps_known s1 = gps_known s /\ consistent s1).
  { split; [reflexivity|].
    apply (consistent_append s s1
             (discovered_gps (hex (slice record 1 (Z.min 4 (len record)))) best pos)
             (c_latitude best) (c_longitude best) Hc);
      try reflexivity.
    cbn. rewrite app_assoc. reflexivity. }
  destruct H1 as (Hk & Hc1).
  destruct (len (coord_history s1) mod 100 =? 0); [|auto].
  destruct (update_region_center_keeps s1) as (Hk' & _).
  split; [congruence | apply consistent_update_region_center, Hc1].
Qed.

(** The sequences of a parsed session hang together. *)
Lemma parse_all_session_consistent (data : list byte) : consistent (parse_all data).
Proof.
  unfold parse_all, phase1, phase2.
  assert (H1 : forall records s, gps_discovered s = [] -> consistent s ->
                 gps_discovered (fold_left phase1_step records s) = [] /\
                 consistent (fold_left phase1_step records s)).
  { induction records as [|item records IH]; intros s Hd Hc; cbn [fold_left]; [auto|].
    destruct (phase1_step_consistent s item Hd Hc) as (Hd' & Hc'). apply IH; auto. }
  assert (H2 : forall records s, consistent s ->
                 consistent (fold_left phase2_step records s)).
  { induction records as [|item records IH]; intros s Hc; cbn [fold_left]; [auto|].
    apply IH. apply phase2_step_consistent, Hc. }
  apply H2. unfold after_phase1.
  destruct (H1 (find_records data) init_session eq_refl) as (_ & Hc).
  { repeat split. }
  destruct (0 <? _); [apply consistent_update_region_center, Hc | exact Hc].
Qed.

End Consistency.

(** ** Stored coordinates are finite numbers *)

(** A number between two finite bounds is finite: it is neither NaN nor an
    infinity. *)
Lemma between_finite (lo hi x : float) :
  is_finite lo = true -> is_finite hi = true ->
  (lo <=? x)%float = true -> (x <=? hi)%float = true ->
  is_finite x = true.
Proof.
  unfold is_finite, is_nan, is_infinity.
  rewrite !FloatAxioms.leb_spec, !FloatAxioms.eqb_spec, !FloatAxioms.abs_spec.
  change (Prim2SF infinity) with (S754_infinity false).
  unfold SFleb, SFeqb.
  destruct (Prim2SF lo) as [[]|[]| |[] ? ?], (Prim2SF hi) as [[]|[]| |[] ? ?],
    (Prim2SF x) as [[]|[]| |[] ? ?]; cbn; try discriminate; intros;
    rewrite ?Z.compare_refl;
    change (Pos.compare_cont Eq ?a ?a) with (Pos.compare a a);
    rewrite ?Pos.compare_refl; reflexivity.
Qed.

Lemma valid_pair_finite (lat lon : float) :
  valid_pair lat lon -> is_finite lat = true /\ is_finite lon = true.
Proof.
  intros (H1 & H2 & H3 & H4 & _). split.
  - exact (between_finite (-90) 90 lat eq_refl eq_refl H1 H2).
  - exact (between_finite (-180) 180 lon eq_refl eq_refl H3 H4).
Qed.

Section History.

Context {M : MathLib}.

(** A property of a pair that both decoders establish holds of every entry
    of the coordinate history. *)
Lemma coord_history_invariant (P : float * float -> Prop) :
  (forall lat lon, valid_pair lat lon -> P (lat, lon)) ->
  forall data, Forall P (coord_history (parse_all data)).
Proof.
  intros HP data. unfold parse_all, phase1, phase2.
  assert (H1 : forall records s, Forall P (coord_history s) ->
                 Forall P (coord_history (fold_left phase1_step records s))).
  { induction records as [|item records IH]; intros s Hs; cbn [fold_left]; [exact Hs|].
    apply IH.
    destruct (phase1_step_cases s item)
      as [(_ & _ & -> & _) | (gps & lat & lon & Hp & Hlat & Hlon & _ & _ & -> & _)];
      [exact Hs|].
    apply Forall_app. split; [exact Hs|]. constructor; [|constructor].
    apply HP. destruct (known_absolute_fields _ _ Hp) as (_ & _ & la & lo & Ela & Elo & Hv).
    apply is_valid_coordinate_iff. congruence. }
  assert (H2 : forall records s, Forall P (coord_history s) ->
                 Forall P (coord_history (fold_left phase2_step records s))).
  { induction records as [|[pos record] records IH]; intros s Hs; cbn [fold_left];
      [exact Hs|].
    apply IH.
    destruct (phase2_step_cases s pos record)
      as [((_ & _ & -> & _) & _) | (best & rest & _ & Hf & _ & _ & -> & _)]; [exact Hs|].
    apply Forall_app. split; [exact Hs|]. constructor; [|constructor].
    apply HP, is_valid_coordinate_iff.
    assert (Hin : In best (find_gps_in_record s record)) by (rewrite Hf; left; reflexivity).
    apply in_find_gps_in_record in Hin. apply Hin. }
  apply H2. unfold after_phase1.
  assert (H0 : Forall P (coord_history (fold_left phase1_step (find_records data) init_session))).
  { apply H1. constructor. }
  destruct (0 <? _); [|exact H0].
  destruct (update_region_center_fields
              (fold_left phase1_step (find_records data) init_session)) as (_ & _ & -> & _).
  exact H0.
Qed.

(** X5.  Every pair in the coordinate history after parsing satisfies the
    validity invariant and consists of two finite numbers: no NaN and no
    infinity ever reaches the coherence check, the region median or the
    trajectory. *)
Theorem coord_history_finite (data : list byte) :
  Forall (fun p => valid_pair (fst p) (snd p) /\
                   is_finite (fst p) = true /\ is_finite (snd p) = true)
    (coord_history (parse_all data)).
Proof.
  apply coord_history_invariant. intros lat lon Hv. cbn [fst snd].
  split; [exact Hv | apply valid_pair_finite, Hv].
Qed.

End History.

(** ** Relative-position and telemetry decoders *)

Lemma unpack_f_at (record : list byte) (a b : Z) :
  0 <= a -> b = a + 4 -> b <= len record ->
  unpack_f (slice record a b) = Ret (float32_of_bits (le_uint (slice record a b))).
Proof. intros Ha -> Hb. apply unpack_f_slice; assumption. Qed.

Lemma unpack_I_at (record : list byte) (a b : Z) :
  0 <= a -> b = a + 4 -> b <= len record ->
  unpack_I (slice record a b) = Ret (le_uint (slice record a b)).
Proof. intros Ha -> Hb. apply unpack_I_slice; assumption. Qed.

(** X6.  The relative-position decoder returns a sample exactly when the
    record has at least 40 bytes and bytes 1 and 2 are [0x27 0x52]; the sample
    carries the little-endian uint32 at offset 4 and the binary32 numbers at
    offsets 20, 24 and 28, whatever they are: no validity filter applies, and
    the sample has no latitude or longitude. *)
Theorem parse_known_gps_relative_iff (record : list byte) (gps : Gps) :
  parse_known_gps_relative record = Some gps <->
  (40 <= len record /\
   index record 1 = Some x27 /\ index record 2 = Some x52 /\
   gps = {| source := KNOWN_RELATIVE;
            type_hex := hex (slice record 1 4);
            counter := Some (le_uint (slice record 4 8));
            latitude := None;
            longitude := None;
            altitude := None;
            xyz := Some (float32_of_bits (le_uint (slice record 20 24)),
                         float32_of_bits (le_uint (slice record 24 28)),
                         float32_of_bits (le_uint (slice record 28 32)));
            record_offset := 20;
            record_pos := None |}).
Proof.
  unfold parse_known_gps_relative.
  destruct (len record <? 40) eqn:Elen.
  { apply Z.ltb_lt in Elen. split; [discriminate | intros (H & _); lia]. }
  apply Z.ltb_ge in Elen.
  destruct (byte_at_is record 1 x27) eqn:E1; cbn [andb negb].
  2:{ split; [discriminate|]. intros (_ & H1 & _).
      apply byte_at_is_spec in H1. congruence. }
  destruct (byte_at_is record 2 x52) eqn:E2; cbn [andb negb].
  2:{ split; [discriminate|]. intros (_ & _ & H2 & _).
      apply byte_at_is_spec in H2. congruence. }
  apply byte_at_is_spec in E1, E2.
  rewrite (unpack_I_at record 4 8), (unpack_f_at record 20 24),
    (unpack_f_at record 24 28), (unpack_f_at record 28 32) by lia.
  cbn [bind catch]. split.
  - intros [= <-]. auto.
  - intros (_ & _ & _ & ->). reflexivity.
Qed.

Lemma bytes_eqb_KS (b0 b1 b2 : byte) (rest : list byte) :
  bytes_eqb (slice (b0 :: b1 :: b2 :: rest) 1 3) KS = Byte.eqb b1 x4b && Byte.eqb b2 x53.
Proof.
  change (slice (b0 :: b1 :: b2 :: rest) 1 3) with [b1; b2]. cbn.
  rewrite andb_true_r. reflexivity.
Qed.

Lemma byte_eqb_eq (a b : byte) : Byte.eqb a b = true <-> a = b.
Proof. split; [apply byte_dec_bl | intros ->; apply byte_dec_lb; reflexivity]. Qed.

(** X7.  The telemetry decoder returns a sample exactly when the record has
    at least 77 bytes and bytes 1 and 2 are [KS]; the sample carries the
    little-endian uint32 at offset 4 and the binary32 numbers at offsets 32,
    36 and 40, unfiltered. *)
Theorem parse_ks_telemetry_iff (record : list byte) (tel : Telemetry) :
  parse_ks_telemetry record = Some tel <->
  (77 <= len record /\
   index record 1 = Some x4b /\ index record 2 = Some x53 /\
   tel = {| tel_counter := le_uint (slice record 4 8);
            param1 := float32_of_bits (le_uint (slice record 32 36));
            param2 := float32_of_bits (le_uint (slice record 36 40));
            param3 := float32_of_bits (le_uint (slice record 40 44)) |}).
Proof.
  unfold parse_ks_telemetry.
  destruct (len record <? 77) eqn:Elen.
  { apply Z.ltb_lt in Elen. split; [discriminate | intros (H & _); lia]. }
  apply Z.ltb_ge in Elen.
  rewrite (unpack_I_at record 4 8), (unpack_f_at record 32 36),
    (unpack_f_at record 36 40), (unpack_f_at record 40 44) by lia.
  destruct record as [|b0 [|b1 [|b2 rest]]];
    try (unfold len in Elen; cbn [length] in Elen; lia).
  rewrite bytes_eqb_KS. unfold index. cbn [Z.ltb Z.compare Z.to_nat Pos.to_nat
    Pos.iter_op Nat.add nth_error].
  destruct (Byte.eqb b1 x4b) eqn:E1; cbn [andb negb bind catch].
  2:{ split; [discriminate|]. intros (_ & [= H1] & _).
      apply byte_eqb_eq in H1. congruence. }
  destruct (Byte.eqb b2 x53) eqn:E2; cbn [andb negb bind catch].
  2:{ split; [discriminate|]. intros (_ & _ & [= H2] & _).
      apply byte_eqb_eq in H2. congruence. }
  apply byte_eqb_eq in E1, E2. subst b1 b2. split.
  - intros [= <-]. auto.
  - intros (_ & _ & _ & ->). reflexivity.
Qed.

(** ** Records with a known or telemetry tag bypass the locator *)

Section Dispatch.

Context {M : MathLib}.

#[local] Open Scope Z_scope.

Lemma dispatched_tag_flags (b0 b1 b2 b3 : byte) (rest : list byte) :
  dispatched_tag (b0 :: b1 :: b2 :: b3 :: rest) ->
  is_known_type (hex [b1; b2; b3]) = true \/
  (is_known_type (hex [b1; b2; b3]) = false /\
   bytes_eqb (slice (b0 :: b1 :: b2 :: b3 :: rest) 1 3) KS = true).
Proof.
  rewrite is_known_type_hex, bytes_eqb_KS.
  unfold dispatched_tag, index. cbn.
  intros [([= ->] & [= ->]) | [([= ->] & [= ->]) | ([= ->] & [= ->])]];
    [left | left | right]; auto.
Qed.

(** X8.  A record whose tag is one of the two known layouts or [KS] is
    never scanned for coordinates, even when it is too short for its decoder:
    the second loop leaves the GPS sequences, the history and the region
    estimate as they are, and appends to the telemetry sequence exactly what
    the telemetry decoder returns. *)
Theorem tagged_record_bypasses_locator (s : Session) (pos : Z) (record : list byte) :
  dispatched_tag record ->
  gps_known (phase2_step s (pos, record)) = gps_known s /\
  gps_discovered (phase2_step s (pos, record)) = gps_discovered s /\
  gps_all (phase2_step s (pos, record)) = gps_all s /\
  coord_history (phase2_step s (pos, record)) = coord_history s /\
  region_center (phase2_step s (pos, record)) = region_center s /\
  telemetry (phase2_step s (pos, record)) =
    telemetry s ++ option_list (parse_ks_telemetry record).
Proof.
  intros Htag. unfold phase2_step.
  destruct (len record <? 4) eqn:Elen.
  { apply Z.ltb_lt in Elen. unfold parse_ks_telemetry.
    replace (len record <? 77) with true by (symmetry; apply Z.ltb_lt; lia).
    cbn. rewrite app_nil_r. auto 10. }
  apply Z.ltb_ge in Elen.
  destruct record as [|b0 [|b1 [|b2 [|b3 rest]]]];
    try (unfold len in Elen; cbn [length] in Elen; lia).
  rewrite (Z.min_l 4 _ Elen).
  change (slice (b0 :: b1 :: b2 :: b3 :: rest) 1 4) with [b1; b2; b3].
  destruct (dispatched_tag_flags _ _ _ _ _ Htag) as [Hk | (Hk & Hks)]; rewrite Hk.
  - assert (Hnone : parse_ks_telemetry (b0 :: b1 :: b2 :: b3 :: rest) = None).
    { unfold parse_ks_telemetry. destruct (len _ <? 77); [reflexivity|].
      rewrite bytes_eqb_KS. rewrite is_known_type_hex in Hk.
      destruct (Byte.eqb b1 x4b) eqn:E1; [|reflexivity].
      apply byte_eqb_eq in E1. subst b1. cbn in Hk. discriminate. }
    rewrite Hnone. cbn. rewrite app_nil_r. auto 10.
  - rewrite Hks. destruct (parse_ks_telemetry _); cbn; rewrite ?app_nil_r; auto 10.
Qed.

End Dispatch.

(** A 20-byte record tagged as absolute GPS: the hypothesis of X8 holds,
    although the record is too short to decode. *)
Lemma tagged_record_bypasses_locator_witness :
  let record := [x7e; x23; x52; x01] ++ repeat x41 16 in
  let s' := @phase2_step Reference.exact_points_math init_session (0, record) in
  dispatched_tag record /\
  gps_known s' = gps_known init_session /\
  gps_discovered s' = gps_discovered init_session /\
  gps_all s' = gps_all init_session /\
  coord_history s' = coord_history init_session /\
  region_center s' = region_center init_session /\
  telemetry s' = telemetry init_session ++ option_list (parse_ks_telemetry record).
Proof.
  cbv zeta.
  assert (H : dispatched_tag ([x7e; x23; x52; x01] ++ repeat x41 16))
    by (left; split; reflexivity).
  split; [exact H|].
  exact (@tagged_record_bypasses_locator Reference.exact_points_math init_session 0 _ H).
Defined.

(** ** Every stored sample comes from a record of the file *)

Section Soundness.

Context {M : MathLib}.

#[local] Open Scope Z_scope.

(** Only a record of at least 4 bytes with an unknown tag reaches the
    locator. *)
Lemma reaches_locator_unknown_tag (record : list byte) :
  reaches_locator record = true -> 4 <= len record /\ unknown_tag record.
Proof.
  unfold reaches_locator. intros H.
  apply andb_prop in H. destruct H as (H & Hks).
  apply andb_prop in H. destruct H as (Hlen & Hk).
  apply negb_true_iff in Hlen, Hk, Hks. apply Z.ltb_ge in Hlen.
  split; [exact Hlen|].
  destruct record as [|b0 [|b1 [|b2 [|b3 rest]]]];
    try (unfold len in Hlen; cbn [length] in Hlen; lia).
  rewrite (Z.min_l 4 _ Hlen) in Hk.
  change (slice (b0 :: b1 :: b2 :: b3 :: rest) 1 4) with [b1; b2; b3] in Hk.
  rewrite is_known_type_hex in Hk. rewrite bytes_eqb_KS in Hks.
  unfold unknown_tag, index. cbn.
  repeat split; intros ([= ->] & [= ->]); cbn in Hk, Hks; discriminate.
Qed.

(** A property that both decoders establish of the samples they read off
    the records of the file, the locator in the session that the second loop
    has built from the records before, holds of every entry of [gps_all]. *)
Lemma gps_all_from_records_in_order (data : list byte) (P : Gps -> Prop) :
  (forall pos record gps,
     In (pos, record) (find_records data) ->
     parse_known_gps_absolute record = Some gps -> P gps) ->
  (forall before pos record after c rest,
     find_records data = before ++ (pos, record) :: after ->
     reaches_locator record = true ->
     find_gps_in_record (session_before data before) record = c :: rest ->
     P (discovered_gps (hex (slice record 1 (Z.min 4 (len record)))) c pos)) ->
  Forall P (gps_all (parse_all data)).
Proof.
  intros Hknown Hfound. unfold parse_all.
  set (s0 := after_phase1 (phase1 (find_records data) init_session)).
  assert (H0 : Forall P (gps_all s0)).
  { assert (H1 : forall records s,
                   incl records (find_records data) -> Forall P (gps_all s) ->
                   Forall P (gps_all (fold_left phase1_step records s))).
    { induction records as [|[pos record] records IH]; intros s Hin Hs; cbn [fold_left];
        [exact Hs|].
      apply IH; [intros x Hx; apply Hin; right; exact Hx|].
      destruct (phase1_step_cases s (pos, record))
        as [(-> & _) | (gps & lat & lon & Hp & _ & _ & -> & _)]; [exact Hs|].
      apply Forall_app. split; [exact Hs|]. constructor; [|constructor].
      apply (Hknown pos record); [apply Hin; left; reflexivity | exact Hp]. }
    subst s0. unfold after_phase1, phase1.
    assert (H : Forall P (gps_all (fold_left phase1_step (find_records data) init_session))).
    { apply H1; [apply incl_refl | constructor]. }
    destruct (0 <? _); [|exact H].
    destruct (update_region_center_fields
                (fold_left phase1_step (find_records data) init_session)) as (-> & _).
    exact H. }
  assert (H2 : forall rest before,
            find_records data = before ++ rest ->
            Forall P (gps_all (phase2 before s0)) ->
            Forall P (gps_all (phase2 (before ++ rest) s0))).
  { induction rest as [|[pos record] rest IH]; intros before Hsplit Hs.
    - rewrite app_nil_r. exact Hs.
    - replace (before ++ (pos, record) :: rest)
        with ((before ++ [(pos, record)]) ++ rest)
        by (rewrite <- app_assoc; reflexivity).
      apply IH; [rewrite <- app_assoc; exact Hsplit|].
      unfold phase2. rewrite fold_left_app. cbn [fold_left].
      fold (phase2 before s0).
      destruct (phase2_step_cases (phase2 before s0) pos record)
        as [((-> & _) & _) | (best & rest' & Hr & Hf & -> & _)]; [exact Hs|].
      apply Forall_app. split; [exact Hs|]. constructor; [|constructor].
      exact (Hfound before pos record rest best rest' Hsplit Hr Hf). }
  apply (H2 (find_records data) [] eq_refl). exact H0.
Qed.





(** X9.  Parsing invents no sample: every entry of [gps_all] is either what
    the absolute-GPS decoder returns on a record of the file, or a discovered
    sample read off a record of the file that has an unknown tag and at least
    13 bytes.  The discovered sample holds the pair at the lowest offset of
    the scan range that passed the filters of the session at that time, the
    session the second loop had built from the records before that record;
    its [record_pos] is the position of the record and its altitude is what
    the locator reads after the pair. *)
Theorem gps_all_samples_come_from_records (data : list byte) :
  Forall
    (fun g =>
       (exists pos record,
          In (pos, record) (find_records data) /\
          parse_known_gps_absolute record = Some g) \/
       (exists before pos record after,
          find_records data = before ++ (pos, record) :: after /\
          discovered_from (session_before data before) pos record g))
    (gps_all (parse_all data)).
Proof.
  apply gps_all_from_records_in_order.
  - intros pos record gps Hin Hp. left. exists pos, record. auto.
  - intros before pos record after c rest Hsplit Hr Hf.
    right. exists before, pos, record, after. split; [exact Hsplit|].
    destruct (reaches_locator_unknown_tag record Hr) as (Hlen & Htag).
    rewrite (Z.min_l 4 _ Hlen).
    destruct (first_candidate_lowest _ _ _ _ Hf) as (Hlow & Halt).
    pose proof Hlow as (Ho & _).
    unfold discovered_from.
    cbn [discovered_gps latitude longitude record_offset source record_pos
         counter type_hex altitude].
    split; [exact Htag|]. split; [lia|].
    do 4 (split; [reflexivity|]).
    split; [|exact Halt].
    exists (c_latitude c), (c_longitude c). auto.
Qed.

End Soundness.

(** ** Shape of the candidate list *)

Section Candidates.

Context {M : MathLib}.

#[local] Open Scope Z_scope.

Lemma scan_offsets (s : Session) (record : list byte) (offsets : list Z) :
  map c_offset (scan s record offsets) = filter (has_candidate s record) offsets.
Proof.
  induction offsets as [|o rest IH]; cbn; [reflexivity|].
  unfold has_candidate. destruct (candidate_at s record o) as [c|] eqn:E; cbn.
  - apply candidate_at_iff in E. destruct E as (_ & -> & _). f_equal. exact IH.
  - exact IH.
Qed.

Lemma range_sorted (n : nat) :
  forall a b, Z.to_nat (b - a) = n -> StronglySorted Z.lt (range a b).
Proof.
  induction n as [|n IH]; intros a b Hn.
  - rewrite range_empty by lia. constructor.
  - rewrite range_cons by lia. constructor.
    + apply IH. lia.
    + apply Forall_forall. intros x Hx. apply in_range in Hx. lia.
Qed.

Lemma filter_sorted (f : Z -> bool) (l : list Z) :
  StronglySorted Z.lt l -> StronglySorted Z.lt (filter f l).
Proof.
  induction 1 as [|x l Hs IH Hx]; cbn; [constructor|].
  destruct (f x); [|exact IH]. constructor; [exact IH|].
  apply Forall_forall. intros y Hy. apply filter_In in Hy.
  rewrite Forall_forall in Hx. apply Hx, Hy.
Qed.

Lemma candidate_altitude_some (record : list byte) (o : Z) (a : float) :
  candidate_altitude record o = Some a ->
  o + 12 <= len record /\
  unpack_f (slice record (o + 8) (o + 12)) = Ret a /\
  (-500 <? a)%float = true /\ (a <? 10000)%float = true.
Proof.
  unfold candidate_altitude. destruct (o + 12 <=? len record) eqn:E; [|discriminate].
  apply Z.leb_le in E.
  destruct (unpack_f (slice record (o + 8) (o + 12))) as [x|]; cbn; [|discriminate].
  destruct ((-500 <? x)%float && (x <? 10000)%float) eqn:Er; [|discriminate].
  intros [= <-]. apply andb_prop in Er. tauto.
Qed.

(** X10.  The candidate list of a record: it is empty for a record of at
    most 12 bytes; it holds at most 76 candidates; their offsets are strictly
    ascending; and an attached altitude is the binary32 number 8 bytes after
    the candidate's offset, lies wholly inside the record, and is strictly
    between -500 and 10000. *)
Theorem find_gps_in_record_shape (s : Session) (record : list byte) :
  (len record <= 12 -> find_gps_in_record s record = []) /\
  (length (find_gps_in_record s record) <= 76)%nat /\
  StronglySorted Z.lt (map c_offset (find_gps_in_record s record)) /\
  Forall
    (fun c =>
       forall a, c_altitude c = Some a ->
         c_offset c + 12 <= len record /\
         unpack_f (slice record (c_offset c + 8) (c_offset c + 12)) = Ret a /\
         (-500 <? a)%float = true /\ (a <? 10000)%float = true)
    (find_gps_in_record s record).
Proof.
  unfold find_gps_in_record. destruct (len record <? 12) eqn:E.
  { repeat split; cbn; auto; try lia; constructor. }
  apply Z.ltb_ge in E. repeat split.
  - intros H. rewrite range_empty by lia. reflexivity.
  - rewrite <- (length_map c_offset), scan_offsets.
    etransitivity; [apply filter_length_le|].
    unfold range. rewrite length_map, length_seq. lia.
  - rewrite scan_offsets. apply filter_sorted. eapply range_sorted. reflexivity.
  - apply Forall_forall. intros c Hc a Ha.
    apply in_scan in Hc. destruct Hc as (o & _ & Hc).
    apply candidate_at_iff in Hc. destruct Hc as (_ & <- & Halt).
    rewrite Halt in Ha. apply candidate_altitude_some, Ha.
Qed.

End Candidates.

(** ** Start-point trimming *)

Section Trimming.

Context {M : MathLib}.

#[local] Open Scope Z_scope.

Lemma first_near_found (clat clon md : float) (l : list Coord) :
  forall k i,
    first_near clat clon md (enumerate_from k l) = Ret (Some i) ->
    k <= i < k + len l /\
    exists c d,
      nth_error l (Z.to_nat (i - k)) = Some c /\
      calculate_distance (coord_lat c) (coord_lon c) clat clon = Ret d /\
      (d <? md)%float = true /\
      forall j c', k <= j < i -> nth_error l (Z.to_nat (j - k)) = Some c' ->
        exists d', calculate_distance (coord_lat c') (coord_lon c') clat clon = Ret d' /\
                   (d' <? md)%float = false.
Proof.
  induction l as [|[[lon lat] alt] l IH]; intros k i; cbn [enumerate_from first_near].
  - discriminate.
  - destruct (calculate_distance lat lon clat clon) as [d|] eqn:Ed; cbn [bind];
      [|discriminate].
    destruct (d <? md)%float eqn:Elt.
    + intros [= <-]. split; [unfold len; cbn [length]; lia|].
      exists (lon, lat, alt), d. rewrite Z.sub_diag. cbn.
      repeat split; auto. intros; lia.
    + intros H. apply IH in H. destruct H as (Hi & c & d0 & Hn & Hd & Hlt & Hbefore).
      split; [unfold len in *; cbn [length]; lia|].
      exists c, d0.
      replace (Z.to_nat (i - k)) with (S (Z.to_nat (i - (k + 1)))) by lia.
      cbn [nth_error]. repeat split; auto.
      intros j c' Hj Hc'. destruct (Z.eq_dec j k) as [->|Hne].
      * rewrite Z.sub_diag in Hc'. cbn in Hc'. injection Hc' as <-.
        exists d. auto.
      * apply (Hbefore j c'); [lia|].
        replace (Z.to_nat (j - k)) with (S (Z.to_nat (j - (k + 1)))) in Hc' by lia.
        exact Hc'.
Qed.

(** X11.  When [find_real_start_point] returns an index, the index lies in
    [0, len) (0 for an empty trajectory); it is 0 for fewer than 20 points;
    and a non-zero index is the first point of the trajectory within 30 km of
    the centroid of its middle third: every earlier point is farther. *)
Theorem find_real_start_point_first_near (coords : list Coord) (i : Z) :
  find_real_start_point coords = Ret i ->
  0 <= i /\ (i < len coords \/ coords = []) /\
  (len coords < 20 -> i = 0) /\
  (0 < i ->
   exists c, index coords i = Some c /\ near_centre coords c = Ret true /\
     forall j c', 0 <= j < i -> index coords j = Some c' ->
       near_centre coords c' = Ret false).
Proof.
  unfold find_real_start_point.
  destruct (len coords <? 20) eqn:E20.
  { intros [= <-]. apply Z.ltb_lt in E20. repeat split; try lia.
    destruct coords; [right; reflexivity | left; unfold len; cbn [length]; lia]. }
  apply Z.ltb_ge in E20.
  destruct (slice coords (len coords / 3) (2 * len coords / 3)) as [|m ms] eqn:Em.
  { intros [= <-]. repeat split; lia. }
  destruct (first_near _ _ _ _) as [[k|]|] eqn:Ef; cbn [bind]; try discriminate.
  - intros [= <-]. apply first_near_found in Ef.
    destruct Ef as (Hk & c & d & Hn & Hd & Hlt & Hbefore).
    rewrite Z.sub_0_r in Hn.
    repeat split; try lia.
    intros Hpos. exists c. split.
    { unfold index. replace (k <? 0) with false by (symmetry; apply Z.ltb_ge; lia).
      exact Hn. }
    split.
    { unfold near_centre, middle_centre. cbv zeta. rewrite Em. cbn [fst snd].
      rewrite Hd. cbn. rewrite Hlt. reflexivity. }
    intros j c' Hj Hc'. unfold index in Hc'.
    replace (j <? 0) with false in Hc' by (symmetry; apply Z.ltb_ge; lia).
    destruct (Hbefore j c' ltac:(lia)) as (d' & Hd' & Hlt').
    { rewrite Z.sub_0_r. exact Hc'. }
    unfold near_centre, middle_centre. cbv zeta. rewrite Em. cbn [fst snd].
    rewrite Hd'. cbn. rewrite Hlt'. reflexivity.
  - intros [= <-]. repeat split; lia.
Qed.

End Trimming.

(** A trajectory of 20 points, three at latitude 5, longitude 10 and then
    seventeen at latitude 0, longitude 32.  The centroid of the middle third is
    (0, 32); [find_real_start_point] returns 3, so the hypothesis of X11 holds:
    point 3 is the first one within 30 km of the centroid. *)
Lemma find_real_start_point_first_near_witness :
  let coords :=
    (repeat (10, 5, Some 150) 3 ++ repeat (32, 0, Some 150) 17)%float in
  @find_real_start_point Reference.exact_points_math coords = Ret 3 /\
  @middle_centre Reference.exact_points_math coords = (0, 32)%float /\
  0 <= 3 /\ (3 < len coords \/ coords = []) /\
  (len coords < 20 -> 3 = 0) /\
  (0 < 3 ->
   exists c, index coords 3 = Some c /\
     @near_centre Reference.exact_points_math coords c = Ret true /\
     forall j c', 0 <= j < 3 -> index coords j = Some c' ->
       @near_centre Reference.exact_points_math coords c' = Ret false).
Proof.
  cbv zeta.
  assert (H : @find_real_start_point Reference.exact_points_math
                (repeat (10, 5, Some 150) 3 ++ repeat (32, 0, Some 150) 17)%float = Ret 3)
    by (vm_compute; reflexivity).
  split; [exact H|]. split; [vm_compute; reflexivity|].
  exact (@find_real_start_point_first_near Reference.exact_points_math _ 3 H).
Defined.

(** ** Shape of the written trajectory *)

Section TrajectoryExport.

Context {M : MathLib}.

#[local] Open Scope Z_scope.

Lemma find_real_start_point_bounds (coords : list Coord) (i : Z) :
  coords <> [] -> find_real_start_point coords = Ret i ->
  0 <= i < len coords /\ (len coords < 20 -> i = 0).
Proof.
  intros Hne. unfold find_real_start_point.
  assert (Hpos : 0 < len coords)
    by (destruct coords; [congruence | unfold len; cbn [length]; lia]).
  destruct (len coords <? 20) eqn:E20.
  { intros [= <-]. split; [lia | reflexivity]. }
  apply Z.ltb_ge in E20.
  destruct (slice coords _ _); [intros [= <-]; split; lia|].
  destruct (first_near _ _ _ _) as [[k|]|] eqn:Ef; cbn [bind]; try discriminate.
  - intros [= <-]. apply first_near_found in Ef. split; lia.
  - intros [= <-]. split; lia.
Qed.

Lemma override_start_cases (raw : list Coord) (i j : Z) (printed : list Event) :
  override_start raw i = Ret (j, printed) ->
  (j = i /\ printed = []) \/
  (j = 10 /\ printed = [Print (MsgForcedSkip 10)] /\ 50 < len raw).
Proof.
  unfold override_start.
  destruct ((i <? 5) && (50 <? len raw)) eqn:E; [|intros [= <- <-]; auto].
  apply andb_prop in E. destruct E as (_ & E50). apply Z.ltb_lt in E50.
  destruct (slice raw _ _); [intros [= <- <-]; auto|].
  destruct (count_outliers _ _ _ _) as [n|]; cbn [bind]; [|discriminate].
  destruct (5 <? n); intros [= <- <-]; auto.
Qed.

Lemma format_points_shape (cs : list Coord) :
  Forall (fun c => coord_alt c <> None) cs ->
  exists path,
    format_points cs = Ret path /\ map fst path = map fst cs /\
    Forall2 (fun c p => coord_alt c = Some (snd p)) cs path.
Proof.
  induction 1 as [|[[lon lat] alt] cs Hc _ IH].
  - exists []. repeat split. constructor.
  - destruct IH as (path & Hf & Hm & Hall).
    unfold coord_alt in Hc. cbn [snd] in Hc.
    destruct alt as [a|]; [|congruence].
    exists ((lon, lat, a) :: path). cbn. rewrite Hf. cbn.
    repeat split; [f_equal; exact Hm | constructor; auto].
Qed.

Lemma interpolate_altitude_has_altitudes (raw : list Coord) :
  map fst (interpolate_altitude raw) = map fst raw /\
  Forall (fun c => coord_alt c <> None) (interpolate_altitude raw).
Proof.
  unfold interpolate_altitude.
  assert (H := interpolate_from_shape raw raw 0).
  induction H as [|c r cs rs (Hf & Ha) _ (IH1 & IH2)]; cbn.
  - split; constructor.
  - split; [f_equal; auto | constructor; auto].
Qed.

(** X12.  Whenever the trajectory exporter writes a document, it writes it
    to the file it was given; the path is not empty and holds, in order, the
    horizontal positions of the raw trajectory from some start index on (the
    index is 0 when there are fewer than 20 points); the point count in the
    description is the length of the path; and the start and finish markers
    are the first and the last point of the path. *)
Theorem written_trajectory_is_suffix (s : Session) (filename f : string) (doc : KmlDoc) :
  In (WriteKml f doc) (export_trajectory_kml s filename) ->
  f = filename /\
  kml_path doc <> [] /\
  kml_count doc = len (kml_path doc) /\
  Some (kml_start doc) = hd_error (kml_path doc) /\
  kml_finish doc = last (kml_path doc) (kml_start doc) /\
  exists start,
    0 <= start < len (trajectory_coords (gps_all s)) /\
    (len (trajectory_coords (gps_all s)) < 20 -> start = 0) /\
    map fst (kml_path doc) =
      skipn (Z.to_nat start) (map fst (trajectory_coords (gps_all s))).
Proof.
  unfold export_trajectory_kml.
  set (raw := trajectory_coords (gps_all s)).
  destruct raw as [|r0 raw'] eqn:Eraw.
  { intros [H | [H | []]]; discriminate H. }
  rewrite <- Eraw.
  assert (Hne : raw <> []) by (subst raw; rewrite Eraw; discriminate).
  destruct (find_real_start_point raw) as [i0|] eqn:Ei; cbn [bind].
  2:{ intros [H | [H | []]]; discriminate H. }
  destruct (find_real_start_point_bounds raw i0 Hne Ei) as (Hi0 & Hsmall).
  destruct (override_start raw i0) as [[start printed]|] eqn:Eo.
  2:{ intros [H | [H | []]]; discriminate H. }
  assert (Hstart : 0 <= start < len raw /\ (len raw < 20 -> start = 0) /\
                   forall f doc, ~ In (WriteKml f doc) printed).
  { destruct (override_start_cases _ _ _ _ Eo) as [(-> & ->) | (-> & -> & H50)].
    - repeat split; try lia; auto.
    - repeat split; try lia. intros f' d' [H | []]. discriminate H. }
  destruct Hstart as (Hb & Hs & Hprinted).
  set (trimmed := if 0 <? start then skipn (Z.to_nat start) raw else raw).
  assert (Htrim : trimmed = skipn (Z.to_nat start) raw).
  { subst trimmed. destruct (0 <? start) eqn:E0; [reflexivity|].
    apply Z.ltb_ge in E0. replace start with 0 by lia. reflexivity. }
  destruct (interpolate_altitude_has_altitudes trimmed) as (Hfst & Halt).
  destruct (format_points_shape _ Halt) as (path & Hfmt & Hpath & _).
  assert (Hlen2 : length (interpolate_altitude trimmed) = length trimmed).
  { pose proof (f_equal (@length _) Hfst) as Hl. rewrite !length_map in Hl. exact Hl. }
  assert (Hlen : length path = length trimmed).
  { pose proof (f_equal (@length _) Hpath) as Hl. rewrite !length_map in Hl.
    rewrite Hl. exact Hlen2. }
  assert (Htrim_ne : trimmed <> []).
  { rewrite Htrim. intros H. apply (f_equal (@length _)) in H.
    rewrite length_skipn in H. unfold len in Hb. cbn in H. lia. }
  destruct (interpolate_altitude trimmed) as [|first coords] eqn:Ec.
  { destruct trimmed; [congruence | discriminate Hfst]. }
  unfold kml_document. rewrite Hfmt. cbn [bind].
  destruct path as [|p path']; [discriminate Hpath|].
  intros Hin.
  assert (Hw : WriteKml f doc =
               WriteKml filename
                 {| kml_count := len (first :: coords);
                    kml_path := p :: path';
                    kml_start := p;
                    kml_finish := last (p :: path') p |}).
  { repeat (apply in_app_or in Hin; destruct Hin as [Hin | Hin]);
      try (destruct (truthy_altitudes (first :: coords));
           repeat (apply in_app_or in Hin; destruct Hin as [Hin | Hin]));
      try (destruct (0 <? start);
           repeat (apply in_app_or in Hin; destruct Hin as [Hin | Hin]));
      try (exfalso; exact (Hprinted _ _ Hin));
      cbn in Hin;
      repeat match goal with
      | H : _ \/ _ |- _ => destruct H as [H | H]
      | H : False |- _ => destruct H
      | H : Print _ = WriteKml _ _ |- _ => discriminate H
      | H : WriteKml _ _ = WriteKml _ _ |- _ => symmetry; exact H
      end. }
  injection Hw as -> ->. cbn [kml_path kml_count kml_start kml_finish].
  split; [reflexivity|]. split; [discriminate|].
  split.
  { unfold len. rewrite Hlen, Hlen2. reflexivity. }
  split; [reflexivity|]. split; [reflexivity|].
  exists start. split; [exact Hb|]. split; [exact Hs|].
  rewrite Hpath, Hfst, Htrim. symmetry. apply skipn_map.
Qed.

End TrajectoryExport.

(** A session parsed from two absolute-GPS records: the exporter writes a
    document, so the hypothesis of X12 holds. *)
Lemma written_trajectory_is_suffix_witness :
  let s := @parse_all Reference.exact_points_math Reference.log_altitude_150_0 in
  exists doc,
    In (WriteKml "trajectory.kml" doc)
       (@export_trajectory_kml Reference.exact_points_math s "trajectory.kml") /\
    ("trajectory.kml" = "trajectory.kml" /\
     kml_path doc <> [] /\
     kml_count doc = len (kml_path doc) /\
     Some (kml_start doc) = hd_error (kml_path doc) /\
     kml_finish doc = last (kml_path doc) (kml_start doc) /\
     exists start,
       0 <= start < len (trajectory_coords (gps_all s)) /\
       (len (trajectory_coords (gps_all s)) < 20 -> start = 0) /\
       map fst (kml_path doc) =
         skipn (Z.to_nat start) (map fst (trajectory_coords (gps_all s))))%string.
Proof.
  cbv zeta.
  assert (H : exists doc,
            In (WriteKml "trajectory.kml" doc)
               (@export_trajectory_kml Reference.exact_points_math
                  (@parse_all Reference.exact_points_math Reference.log_altitude_150_0)
                  "trajectory.kml")).
  { eexists. vm_compute. right. right. left. reflexivity. }
  destruct H as [doc H]. exists doc. split; [exact H|].
  exact (@written_trajectory_is_suffix Reference.exact_points_math _ _ _ _ H).
Defined.

(** ** What the interpolation pass puts in place of a bad altitude *)

Lemma range_down_cons (start stop : Z) :
  stop < start -> range_down start stop = start :: range_down (start - 1) stop.
Proof.
  intros H. unfold range_down.
  replace (Z.to_nat (start - stop)) with (S (Z.to_nat (start - 1 - stop))) by lia.
  cbn [seq map]. f_equal; [lia|].
  rewrite <- seq_shift, map_map. apply map_ext. intros k. lia.
Qed.

Lemma range_down_empty (start stop : Z) : start <= stop -> range_down start stop = [].
Proof.
  intros H. unfold range_down. replace (Z.to_nat (start - stop)) with 0%nat by lia.
  reflexivity.
Qed.

Lemma has_altitude_positive (coords : list Coord) (j : Z) :
  has_altitude coords j = true ->
  exists a, positive_at coords j a /\
            match index coords j with Some c => coord_alt c | None => None end = Some a.
Proof.
  unfold has_altitude, positive_at. destruct (index coords j) as [c|]; [|discriminate].
  destruct (coord_alt c) as [a|] eqn:Ea; cbn; [|discriminate].
  intros H. apply andb_prop in H. destruct H as (_ & Hpos).
  exists a. split; [exists c; repeat split; auto | reflexivity].
Qed.

Lemma search_backward (coords : list Coord) (n : nat) :
  forall start stop, Z.to_nat (start - stop) = n ->
    (search_altitude coords (range_down start stop) = None /\
     forall j, stop < j <= start -> has_altitude coords j = false) \/
    (exists j a,
       stop < j <= start /\ positive_at coords j a /\
       (forall j', j < j' <= start -> has_altitude coords j' = false) /\
       search_altitude coords (range_down start stop) = Some a).
Proof.
  induction n as [|n IH]; intros start stop Hn.
  - left. rewrite range_down_empty by lia. split; [reflexivity | intros; lia].
  - rewrite range_down_cons by lia. cbn [search_altitude].
    destruct (has_altitude coords start) eqn:Eh.
    + right. destruct (has_altitude_positive _ _ Eh) as (a & Hp & Ha).
      exists start, a. repeat split; auto; try lia.
    + destruct (IH (start - 1) stop ltac:(lia))
        as [(Hs & Hnone) | (j & a & Hj & Hp & Hlow & Hs)].
      * left. split; [exact Hs|]. intros j Hj.
        destruct (Z.eq_dec j start) as [->|]; [exact Eh | apply Hnone; lia].
      * right. exists j, a. repeat split; auto; try lia.
        intros j' Hj'. destruct (Z.eq_dec j' start) as [->|]; [exact Eh | apply Hlow; lia].
Qed.

Lemma search_forward (coords : list Coord) (n : nat) :
  forall start stop, Z.to_nat (stop - start) = n ->
    (search_altitude coords (range start stop) = None /\
     forall j, start <= j < stop -> has_altitude coords j = false) \/
    (exists j a,
       start <= j < stop /\ positive_at coords j a /\
       (forall j', start <= j' < j -> has_altitude coords j' = false) /\
       search_altitude coords (range start stop) = Some a).
Proof.
  induction n as [|n IH]; intros start stop Hn.
  - left. rewrite range_empty by lia. split; [reflexivity | intros; lia].
  - rewrite range_cons by lia. cbn [search_altitude].
    destruct (has_altitude coords start) eqn:Eh.
    + right. destruct (has_altitude_positive _ _ Eh) as (a & Hp & Ha).
      exists start, a. repeat split; auto; try lia.
    + destruct (IH (start + 1) stop ltac:(lia))
        as [(Hs & Hnone) | (j & a & Hj & Hp & Hlow & Hs)].
      * left. split; [exact Hs|]. intros j Hj.
        destruct (Z.eq_dec j start) as [->|]; [exact Eh | apply Hnone; lia].
      * right. exists j, a. repeat split; auto; try lia.
        intros j' Hj'. destruct (Z.eq_dec j' start) as [->|]; [exact Eh | apply Hlow; lia].
Qed.

Lemma index_enumerate_map {A B : Type} (f : Z -> A -> B) (l : list A) :
  forall k i a,
    0 <= i -> nth_error l (Z.to_nat i) = Some a ->
    nth_error (map (fun ip => f (fst ip) (snd ip)) (enumerate_from k l)) (Z.to_nat i) =
    Some (f (k + i) a).
Proof.
  induction l as [|x l IH]; intros k i a Hi Hn.
  - destruct (Z.to_nat i); discriminate.
  - destruct (Z.eq_dec i 0) as [->|Hne].
    + cbn in *. injection Hn as ->. rewrite Z.add_0_r. reflexivity.
    + replace (Z.to_nat i) with (S (Z.to_nat (i - 1))) in * by lia.
      cbn [enumerate_from map nth_error] in *.
      rewrite (IH (k + 1) (i - 1) a) by (auto; lia). f_equal. f_equal. lia.
Qed.

(** X13.  A point whose altitude is missing or [<= 0] receives: the mean
    of the nearest positive altitudes before and after it when both searches
    find one; the one found when only one search does; and exactly 100.0 when
    neither does.  The searches read the indices [max(1, i-19) .. i-1] and
    [i+1 .. min(len-1, i+19)], nearest first; longitude and latitude are
    kept. *)
Theorem replaced_altitude_from_nearest (coords : list Coord) (i : Z)
    (lon lat : float) (alt : option float) :
  index coords i = Some (lon, lat, alt) ->
  needs_altitude alt = true ->
  exists v,
    index (interpolate_altitude coords) i = Some (lon, lat, Some v) /\
    ((exists jp p jn n,
        nearest_before coords i jp p /\ nearest_after coords i jn n /\
        v = ((p + n) / 2)%float) \/
     (exists jp p,
        nearest_before coords i jp p /\ none_after coords i /\ v = p) \/
     (exists jn n,
        none_before coords i /\ nearest_after coords i jn n /\ v = n) \/
     (none_before coords i /\ none_after coords i /\ v = 100%float)).
Proof.
  intros Hi Hneeds. unfold index in Hi.
  destruct (i <? 0) eqn:Ei; [discriminate|]. apply Z.ltb_ge in Ei.
  assert (Hout : index (interpolate_altitude coords) i =
                 Some (interpolate_point coords i (lon, lat, alt))).
  { unfold index. replace (i <? 0) with false by (symmetry; apply Z.ltb_ge; lia).
    unfold interpolate_altitude.
    rewrite (index_enumerate_map (interpolate_point coords) coords 0 i _ Ei Hi).
    reflexivity. }
  rewrite Hout, interpolate_point_cases, Hneeds.
  destruct (search_backward coords _ (i - 1) (Z.max 0 (i - 20)) eq_refl)
    as [(Hp & Hnp) | (jp & p & Hjp & Hpp & Hlp & Hp)];
    destruct (search_forward coords _ (i + 1) (Z.min (len coords) (i + 20)) eq_refl)
      as [(Hn & Hnn) | (jn & n & Hjn & Hpn & Hln & Hn)];
    rewrite Hp, Hn; eexists; (split; [reflexivity|]).
  - right. right. right. repeat split; intros j Hj; [apply Hnp | apply Hnn]; lia.
  - right. right. left. exists jn, n. repeat split; auto; try lia.
    intros j Hj. apply Hnp. lia.
  - right. left. exists jp, p. repeat split; auto; try lia.
    intros j Hj. apply Hnn. lia.
  - left. exists jp, p, jn, n. repeat split; auto; lia.
Qed.

(** The second of two points, with altitude 0: the hypotheses of X13 hold. *)
Lemma replaced_altitude_from_nearest_witness :
  let coords := [(37.62, 55.75, Some 150); (37.63, 55.76, Some 0)]%float in
  index coords 1 = Some (37.63, 55.76, Some 0)%float /\
  needs_altitude (Some 0%float) = true /\
  exists v,
    index (interpolate_altitude coords) 1 = Some (37.63, 55.76, Some v)%float /\
    ((exists jp p jn n,
        nearest_before coords 1 jp p /\ nearest_after coords 1 jn n /\
        v = ((p + n) / 2)%float) \/
     (exists jp p,
        nearest_before coords 1 jp p /\ none_after coords 1 /\ v = p) \/
     (exists jn n,
        none_before coords 1 /\ nearest_after coords 1 jn n /\ v = n) \/
     (none_before coords 1 /\ none_after coords 1 /\ v = 100%float)).
Proof.
  cbv zeta. split; [reflexivity|]. split; [reflexivity|].
  exact (replaced_altitude_from_nearest
           [(37.62, 55.75, Some 150); (37.63, 55.76, Some 0)]%float 1
           37.63 55.76 (Some 0%float) eq_refl eq_refl).
Defined.

(** ** When the region estimate exists *)

Section RegionPresence.

Context {M : MathLib}.

#[local] Open Scope Z_scope.

Lemma update_region_center_presence (s : Session) :
  unset_iff_never_refreshed s -> unset_iff_never_refreshed (update_region_center s).
Proof.
  unfold unset_iff_never_refreshed, update_region_center.
  destruct (coord_history s); [auto|]. cbn. intros _. split; [discriminate|].
  intros H. apply app_eq_nil in H. destruct H as (_ & H). discriminate H.
Qed.

Lemma phase1_step_presence (s : Session) (item : Z * list byte) :
  unset_iff_never_refreshed s -> unset_iff_never_refreshed (phase1_step s item).
Proof.
  destruct item as [pos record]. unfold phase1_step.
  destruct (len record <? 4); [auto|].
  destruct (_ && _).
  - destruct (parse_known_gps_absolute record) as [gps|]; [|auto].
    destruct (latitude gps), (longitude gps); auto.
  - destruct (_ && _); [|auto]. destruct (parse_known_gps_relative record); auto.
Qed.

Lemma phase2_step_presence (s : Session) (item : Z * list byte) :
  unset_iff_never_refreshed s -> unset_iff_never_refreshed (phase2_step s item).
Proof.
  destruct item as [pos record]. unfold phase2_step.
  destruct (len record <? 4); [auto|].
  destruct (is_known_type _); [auto|].
  destruct (bytes_eqb _ _); [destruct (parse_ks_telemetry record); auto|].
  destruct (find_gps_in_record s record); [auto|].
  intros H. destruct (_ mod 100 =? 0); [apply update_region_center_presence|]; exact H.
Qed.

Lemma parse_all_presence (data : list byte) :
  unset_iff_never_refreshed (parse_all data).
Proof.
  unfold parse_all, phase1, phase2.
  assert (H1 : forall records s, unset_iff_never_refreshed s ->
                 unset_iff_never_refreshed (fold_left phase1_step records s)).
  { induction records as [|item records IH]; intros s Hs; cbn [fold_left]; [exact Hs|].
    apply IH, phase1_step_presence, Hs. }
  assert (H2 : forall records s, unset_iff_never_refreshed s ->
                 unset_iff_never_refreshed (fold_left phase2_step records s)).
  { induction records as [|item records IH]; intros s Hs; cbn [fold_left]; [exact Hs|].
    apply IH, phase2_step_presence, Hs. }
  apply H2. unfold after_phase1.
  assert (H0 : unset_iff_never_refreshed
                 (fold_left phase1_step (find_records data) init_session)).
  { apply H1. split; reflexivity. }
  destruct (0 <? _); [apply update_region_center_presence|]; exact H0.
Qed.

(** The refresh log of a whole parse, from the counts of the two loops. *)
Lemma parse_all_refresh_log (data : list byte) :
  region_refreshes (parse_all data) =
  refreshes_by_history_length
    (len (coord_history (phase1 (find_records data) init_session)))
    (len (gps_discovered (parse_all data))).
Proof.
  unfold parse_all, refreshes_by_history_length.
  set (known := phase1 (find_records data) init_session).
  destruct (phase1_counts (find_records data) init_session) as (Hd0 & Hr0).
  fold known in Hd0, Hr0. cbn in Hd0, Hr0.
  destruct (phase2_counts (find_records data) (after_phase1 known))
    as (d & Hd & Hdisc & Hhist & Hlog).
  unfold after_phase1 in *.
  destruct (0 <? len (coord_history known)) eqn:E.
  - destruct (update_region_center_fields known) as (_ & Ed & Eh & Er).
    rewrite Ed, Hd0 in Hdisc. rewrite Eh in Hlog. rewrite Er, Hr0 in Hlog.
    cbn in Hdisc. rewrite Hdisc, Hlog.
    destruct (coord_history known); [discriminate E | reflexivity].
  - rewrite Hd0 in Hdisc. rewrite Hr0 in Hlog. cbn in Hdisc.
    rewrite Hdisc, Hlog. reflexivity.
Qed.

Lemma no_multiple_of_100 (D : Z) :
  0 <= D ->
  (filter (fun n => n mod 100 =? 0) (range 1 (D + 1)) = [] <-> D < 100).
Proof.
  intros HD. split.
  - intros H. destruct (Z_lt_ge_dec D 100) as [|Hge]; [assumption|]. exfalso.
    assert (Hin : In 100 (filter (fun n => n mod 100 =? 0) (range 1 (D + 1)))).
    { apply filter_In. split; [apply in_range; lia | reflexivity]. }
    rewrite H in Hin. destruct Hin.
  - intros H.
    destruct (filter (fun n => n mod 100 =? 0) (range 1 (D + 1))) as [|x l] eqn:E;
      [reflexivity|].
    assert (Hin : In x (filter (fun n => n mod 100 =? 0) (range 1 (D + 1))))
      by (rewrite E; left; reflexivity).
    apply filter_In in Hin. destruct Hin as (Hr & Hm).
    apply in_range in Hr. apply Z.eqb_eq in Hm.
    rewrite Z.mod_small in Hm by lia. lia.
Qed.

(** X14.  After parsing, the region estimate is absent exactly when the
    known-GPS phase found no coordinate and fewer than 100 points were
    discovered: without known GPS, the first 99 discovered points are accepted
    with no region estimate at all. *)
Theorem region_estimate_absent_iff (data : list byte) :
  region_center (parse_all data) = None <->
  len (coord_history (phase1 (find_records data) init_session)) = 0 /\
  len (gps_discovered (parse_all data)) < 100.
Proof.
  pose proof (parse_all_presence data) as Hp. unfold unset_iff_never_refreshed in Hp.
  rewrite Hp, parse_all_refresh_log. clear Hp.
  unfold refreshes_by_history_length.
  set (K := len (coord_history (phase1 (find_records data) init_session))).
  set (D := len (gps_discovered (parse_all data))).
  assert (HK : 0 <= K) by (subst K; unfold len; lia).
  assert (HD : 0 <= D) by (subst D; unfold len; lia).
  destruct (0 <? K) eqn:E.
  - apply Z.ltb_lt in E. split; [discriminate | lia].
  - apply Z.ltb_ge in E. assert (K = 0) as -> by lia. cbn [app Z.add].
    rewrite no_multiple_of_100 by exact HD. split; [auto | tauto].
Qed.

End RegionPresence.

(** ** What the locator reads of the session *)

Section LocatorFrame.

Context {M : MathLib}.

#[local] Open Scope Z_scope.

Lemma lastn_nil_iff {A : Type} (n : nat) (l : list A) :
  (0 < n)%nat -> (lastn n l = [] <-> l = []).
Proof.
  intros Hn. split; [|intros ->; reflexivity].
  intros H. destruct (lastn_suffix n l) as (_ & Hlen). rewrite H in Hlen.
  destruct l; [reflexivity | cbn in Hlen; lia].
Qed.

Lemma coherent_same_window (s s' : Session) (lat lon max_jump : float) :
  lastn 10 (coord_history s) = lastn 10 (coord_history s') ->
  is_geographically_coherent s lat lon max_jump =
  is_geographically_coherent s' lat lon max_jump.
Proof.
  intros H. unfold is_geographically_coherent.
  destruct (coord_history s) as [|p h] eqn:E, (coord_history s') as [|p' h'] eqn:E'.
  - reflexivity.
  - symmetry in H. apply lastn_nil_iff in H; [discriminate | lia].
  - apply lastn_nil_iff in H; [discriminate | lia].
  - rewrite H. reflexivity.
Qed.

(** X15.  The locator reads only three things of the session: the last 10
    entries of the coordinate history, whether the history holds more than 10
    entries, and, only in that case, the region estimate.  Two sessions that
    agree on these yield the same candidates for every record. *)
Theorem find_gps_in_record_reads_window (s s' : Session) (record : list byte) :
  lastn 10 (coord_history s) = lastn 10 (coord_history s') ->
  (10 <? len (coord_history s)) = (10 <? len (coord_history s')) ->
  (10 < len (coord_history s) -> region_center s = region_center s') ->
  find_gps_in_record s record = find_gps_in_record s' record.
Proof.
  intros Hwin Hlen Hreg. unfold find_gps_in_record.
  destruct (len record <? 12); [reflexivity|].
  induction (range 4 (Z.min (len record - 8) 80)) as [|o rest IH]; [reflexivity|].
  cbn [scan]. rewrite IH.
  assert (Hc : candidate_at s record o = candidate_at s' record o).
  { unfold candidate_at.
    destruct (unpack_f (slice record o (o + 4))) as [lat|]; [|reflexivity].
    destruct (unpack_f (slice record (o + 4) (o + 8))) as [lon|]; [|reflexivity].
    cbn [bind].
    rewrite (coherent_same_window s s' lat lon 50 Hwin), <- Hlen.
    destruct (10 <? len (coord_history s)) eqn:E; [|reflexivity].
    apply Z.ltb_lt in E. unfold is_in_reasonable_region. rewrite (Hreg E).
    reflexivity. }
  rewrite Hc. reflexivity.
Qed.

(** X16.  In a session with an empty coordinate history, the coherence and
    region checks reject nothing: an offset yields a candidate exactly when
    the pair decoded there is valid and not both coordinates are below 1.0 in
    magnitude, whatever the distance function does. *)
Theorem first_candidate_needs_only_validity (s : Session) (record : list byte)
    (o : Z) (c : Candidate) :
  coord_history s = [] ->
  (candidate_at s record o = Some c <->
   unpack_f (slice record o (o + 4)) = Ret (c_latitude c) /\
   unpack_f (slice record (o + 4) (o + 8)) = Ret (c_longitude c) /\
   is_valid_coordinate (Some (c_latitude c)) (Some (c_longitude c)) = true /\
   ((abs (c_latitude c) <? 1.0)%float && (abs (c_longitude c) <? 1.0)%float) = false /\
   c_offset c = o /\ c_altitude c = candidate_altitude record o).
Proof.
  intros Hh. rewrite candidate_at_iff. unfold passes_filters.
  unfold is_geographically_coherent. rewrite Hh. cbn [len length Z.of_nat].
  split.
  - intros ((H1 & H2 & H3 & H4 & _ & _) & H5 & H6). auto 10.
  - intros (H1 & H2 & H3 & H4 & H5 & H6). repeat split; auto. intros; lia.
Qed.

End LocatorFrame.

(** Two sessions with empty histories: the hypotheses of X15 hold. *)
Lemma find_gps_in_record_reads_window_witness :
  let s := init_session in
  let s' :=
    {| gps_known := []; gps_discovered := []; gps_all := []; telemetry := [];
       coord_history := []; region_center := Some (1, 2)%float;
       region_refreshes := [] |} in
  let record := Reference.unknown_record Reference.f32_0 Reference.f32_37_62 in
  lastn 10 (coord_history s) = lastn 10 (coord_history s') /\
  (10 <? len (coord_history s)) = (10 <? len (coord_history s')) /\
  (10 < len (coord_history s) -> region_center s = region_center s') /\
  @find_gps_in_record Reference.exact_points_math s record =
  @find_gps_in_record Reference.exact_points_math s' record.
Proof.
  cbv zeta.
  assert (H : 10 < len (coord_history init_session) ->
              region_center init_session = Some (1, 2)%float)
    by (cbn; intros; lia).
  split; [reflexivity|]. split; [reflexivity|]. split; [exact H|].
  exact (@find_gps_in_record_reads_window Reference.exact_points_math
           init_session
           {| gps_known := []; gps_discovered := []; gps_all := []; telemetry := [];
              coord_history := []; region_center := Some (1, 2)%float;
              region_refreshes := [] |}
           _ eq_refl eq_refl H).
Defined.

(** A fresh session: the hypothesis of X16 holds. *)
Lemma first_candidate_needs_only_validity_witness :
  let record := Reference.unknown_record Reference.f32_0 Reference.f32_37_62 in
  let c := {| c_offset := 4; c_latitude := 0; c_longitude := 0x1.2cf5c2p+5;
              c_altitude := None |} in
  coord_history init_session = [] /\
  (@candidate_at Reference.exact_points_math init_session record 4 = Some c <->
   unpack_f (slice record 4 (4 + 4)) = Ret (c_latitude c) /\
   unpack_f (slice record (4 + 4) (4 + 8)) = Ret (c_longitude c) /\
   is_valid_coordinate (Some (c_latitude c)) (Some (c_longitude c)) = true /\
   ((abs (c_latitude c) <? 1.0)%float && (abs (c_longitude c) <? 1.0)%float) = false /\
   c_offset c = 4 /\ c_altitude c = candidate_altitude record 4).
Proof.
  cbv zeta. split; [reflexivity|].
  exact (@first_candidate_needs_only_validity Reference.exact_points_math
           init_session _ 4 _ eq_refl).
Defined.

(** ** The region centre is a median *)

Module FloatFacts.

#[local] Open Scope float_scope.

Lemma SFltb_asym (x y : spec_float) : SFltb x y = true -> SFltb y x = false.
Proof.
  unfold SFltb.
  destruct x as [[]|[]| |[] ? ?], y as [[]|[]| |[] ? ?]; cbn; try congruence;
    intros; FloatOrder.split_compare; subst; cbn in *; try congruence; try lia.
Qed.

Lemma ltb_asym (x y : float) : (x <? y) = true -> (y <? x) = false.
Proof. rewrite !FloatAxioms.ltb_spec. apply SFltb_asym. Qed.

Lemma ltb_irrefl (x : float) : (x <? x) = false.
Proof.
  destruct (x <? x) eqn:E; [|reflexivity].
  rewrite (ltb_asym _ _ E) in E. discriminate.
Qed.

End FloatFacts.

Lemma insert_in (x z : float) (l : list float) :
  In z (Py.insert x l) <-> z = x \/ In z l.
Proof.
  split; intros H.
  - apply (Permutation_in _ (insert_perm x l)) in H. destruct H; auto.
  - apply (Permutation_in _ (Permutation_sym (insert_perm x l))).
    destruct H as [->|H]; [left; reflexivity | right; exact H].
Qed.

Lemma insert_sorted (x : float) (l : list float) :
  StronglySorted not_greater l -> StronglySorted not_greater (Py.insert x l).
Proof.
  induction 1 as [|y t Hs IH Hy]; cbn.
  - constructor; constructor.
  - destruct (x <? y)%float eqn:E.
    + constructor; [constructor; assumption|].
      constructor; [exact (FloatFacts.ltb_asym _ _ E)|].
      rewrite Forall_forall in *. intros z Hz. unfold not_greater.
      destruct (z <? x)%float eqn:Ez; [|reflexivity].
      rewrite <- (Hy z Hz). symmetry. exact (FloatOrder.ltb_trans _ _ _ Ez E).
    + constructor; [exact IH|].
      rewrite Forall_forall in *. intros z Hz. apply insert_in in Hz.
      destruct Hz as [->|Hz]; [exact E | exact (Hy z Hz)].
Qed.

Lemma sorted_sorted (l : list float) : StronglySorted not_greater (sorted l).
Proof.
  unfold sorted.
  assert (H : forall acc, StronglySorted not_greater acc ->
                StronglySorted not_greater (fold_left (fun acc x => Py.insert x acc) l acc)).
  { induction l as [|x t IH]; intros acc Hacc; cbn; [exact Hacc|].
    apply IH, insert_sorted, Hacc. }
  apply H. constructor.
Qed.

Lemma sorted_around (a b : list float) (m : float) :
  StronglySorted not_greater (a ++ m :: b) ->
  Forall (fun x => not_greater x m) a /\ Forall (fun x => not_greater m x) b.
Proof.
  induction a as [|x a IH]; cbn; intros H.
  - apply StronglySorted_inv in H. destruct H as (_ & H). split; [constructor | exact H].
  - apply StronglySorted_inv in H. destruct H as (Hs & Hx).
    destruct (IH Hs) as (Ha & Hb). split; [|exact Hb].
    constructor; [|exact Ha].
    rewrite Forall_forall in Hx. apply Hx, in_elt.
Qed.

Lemma filter_length_perm (f : float -> bool) (l l' : list float) :
  Permutation l l' -> length (filter f l) = length (filter f l').
Proof.
  induction 1 as [|x l l' _ IH|x y l|l l' l'' _ IH1 _ IH2]; cbn.
  - reflexivity.
  - destruct (f x); cbn; congruence.
  - destruct (f x), (f y); reflexivity.
  - congruence.
Qed.

Lemma filter_length_all (f : float -> bool) (l : list float) :
  Forall (fun x => f x = true) l -> length (filter f l) = length l.
Proof.
  induction 1 as [|x l Hx _ IH]; cbn; [reflexivity|]. rewrite Hx. cbn. congruence.
Qed.

(** The element at index [len // 2] of the sorted list: more than half of
    the numbers are not greater than it, and at least half (rounded up) are
    not less. *)
Lemma upper_median_counts (l : list float) :
  l <> [] ->
  (length l / 2 < count_not_greater (upper_median l) l)%nat /\
  (length l - length l / 2 <= count_not_less (upper_median l) l)%nat.
Proof.
  intros Hne. unfold upper_median, count_not_greater, count_not_less.
  pose proof (sorted_perm l) as Hperm.
  pose proof (Permutation_length Hperm) as Hlen.
  set (k := (length l / 2)%nat).
  assert (Hk : (k < length (sorted l))%nat).
  { rewrite Hlen. subst k. destruct l; [congruence|]. apply Nat.div_lt; cbn; lia. }
  set (m := nth k (sorted l) nan).
  destruct (nth_split (sorted l) nan Hk) as (a & b & Hsplit & Ha).
  fold m in Hsplit.
  pose proof (sorted_sorted l) as Hs. rewrite Hsplit in Hs.
  destruct (sorted_around a b m Hs) as (Hbefore & Hafter).
  rewrite <- (filter_length_perm _ _ _ Hperm), <- (filter_length_perm _ _ _ Hperm).
  rewrite Hsplit, !filter_app, !length_app. cbn [filter].
  rewrite FloatFacts.ltb_irrefl. cbn [negb length].
  assert (Hla : length (filter (fun x => negb (m <? x)%float) a) = length a).
  { apply filter_length_all. rewrite Forall_forall in *. intros x Hx.
    rewrite (Hbefore x Hx). reflexivity. }
  assert (Hlb : length (filter (fun x => negb (x <? m)%float) b) = length b).
  { apply filter_length_all. rewrite Forall_forall in *. intros x Hx.
    rewrite (Hafter x Hx). reflexivity. }
  rewrite Hla, Hlb.
  assert (Hn : length l = (length a + S (length b))%nat).
  { rewrite <- Hlen, Hsplit, length_app. reflexivity. }
  lia.
Qed.

(** X17.  For every non-empty coordinate history that holds no NaN, the
    stored region centre is a median on each axis: more than half of the
    accumulated latitudes (longitudes) are not greater than the stored one,
    and at least half of them, rounded up, are not less.  (On a list that
    holds a NaN, Python's [sorted] need not return a sorted list; parsing
    never stores one.) *)
Theorem region_center_is_median (self : Session) :
  coord_history self <> [] ->
  Forall (fun p => is_nan (fst p) = false /\ is_nan (snd p) = false)
    (coord_history self) ->
  exists median_lat median_lon,
    region_center (update_region_center self) = Some (median_lat, median_lon) /\
    (length (coord_history self) / 2 <
       count_not_greater median_lat (map fst (coord_history self)))%nat /\
    (length (coord_history self) - length (coord_history self) / 2 <=
       count_not_less median_lat (map fst (coord_history self)))%nat /\
    (length (coord_history self) / 2 <
       count_not_greater median_lon (map snd (coord_history self)))%nat /\
    (length (coord_history self) - length (coord_history self) / 2 <=
       count_not_less median_lon (map snd (coord_history self)))%nat.
Proof.
  intros Hne _.
  exists (upper_median (map fst (coord_history self))),
         (upper_median (map snd (coord_history self))).
  split.
  { unfold update_region_center. destruct (coord_history self); [congruence|].
    cbn [region_center]. rewrite !middle_upper_median. reflexivity. }
  assert (H1 : map fst (coord_history self) <> [])
    by (destruct (coord_history self); [congruence | discriminate]).
  assert (H2 : map snd (coord_history self) <> [])
    by (destruct (coord_history self); [congruence | discriminate]).
  destruct (upper_median_counts _ H1) as (Ha & Hb).
  destruct (upper_median_counts _ H2) as (Hc & Hd).
  rewrite !length_map in *. auto.
Qed.

(** A history of four points, none of them NaN: the hypotheses of X17
    hold, and the stored centre is (3, 30), the upper of the two middle
    values on each axis. *)
Lemma region_center_is_median_witness :
  let self :=
    {| gps_known := []; gps_discovered := []; gps_all := []; telemetry := [];
       coord_history := [(3, 30); (1, 10); (4, 40); (2, 20)]%float;
       region_center := None; region_refreshes := [] |} in
  coord_history self <> [] /\
  Forall (fun p => is_nan (fst p) = false /\ is_nan (snd p) = false)
    (coord_history self) /\
  region_center (update_region_center self) = Some (3, 30)%float /\
  exists median_lat median_lon,
    region_center (update_region_center self) = Some (median_lat, median_lon) /\
    (length (coord_history self) / 2 <
       count_not_greater median_lat (map fst (coord_history self)))%nat /\
    (length (coord_history self) - length (coord_history self) / 2 <=
       count_not_less median_lat (map fst (coord_history self)))%nat /\
    (length (coord_history self) / 2 <
       count_not_greater median_lon (map snd (coord_history self)))%nat /\
    (length (coord_history self) - length (coord_history self) / 2 <=
       count_not_less median_lon (map snd (coord_history self)))%nat.
Proof.
  cbv zeta.
  assert (H : [(3, 30); (1, 10); (4, 40); (2, 20)]%float <> []) by discriminate.
  assert (Hnan : Forall (fun p => is_nan (fst p) = false /\ is_nan (snd p) = false)
                   [(3, 30); (1, 10); (4, 40); (2, 20)]%float)
    by (repeat constructor).
  split; [exact H|]. split; [exact Hnan|]. split; [reflexivity|].
  exact (region_center_is_median
           {| gps_known := []; gps_discovered := []; gps_all := []; telemetry := [];
              coord_history := [(3, 30); (1, 10); (4, 40); (2, 20)]%float;
              region_center := None; region_refreshes := [] |} H Hnan).
Defined.

(** ** Interpolation: what is kept and the default *)

Lemma leb_not_ltb (x y : float) : (x <=? y)%float = true -> (y <? x)%float = false.
Proof.
  rewrite FloatAxioms.leb_spec, FloatAxioms.ltb_spec. unfold SFleb, SFltb.
  destruct (Prim2SF x) as [[]|[]| |[] ? ?], (Prim2SF y) as [[]|[]| |[] ? ?];
    cbn; try congruence;
    intros; FloatOrder.split_compare; subst; cbn in *; try congruence; try lia.
Qed.

Lemma needs_altitude_not_positive (coords : list Coord) :
  Forall (fun c => needs_altitude (coord_alt c) = true) coords ->
  forall j, has_altitude coords j = false.
Proof.
  intros H j. unfold has_altitude.
  destruct (index coords j) as [c|] eqn:E; [|reflexivity].
  unfold index in E. destruct (j <? 0); [discriminate|].
  apply nth_error_In in E. rewrite Forall_forall in H. specialize (H c E).
  unfold needs_altitude in H. destruct (coord_alt c) as [a|]; [|reflexivity].
  rewrite (leb_not_ltb _ _ H). apply andb_false_r.
Qed.

Lemma search_altitude_none (coords : list Coord) (js : list Z) :
  (forall j, has_altitude coords j = false) -> search_altitude coords js = None.
Proof.
  intros H. induction js as [|j rest IH]; cbn; [reflexivity|]. rewrite H. exact IH.
Qed.

(** X18.  The interpolation pass returns every point whose altitude is
    neither missing nor [<= 0] exactly as it was; and when every point of the
    trajectory has a missing or non-positive altitude, every returned
    altitude is exactly 100.0. *)
Theorem interpolate_altitude_keeps_and_defaults (coords : list Coord) :
  Forall2 (fun c r => needs_altitude (coord_alt c) = false -> r = c)
    coords (interpolate_altitude coords) /\
  (Forall (fun c => needs_altitude (coord_alt c) = true) coords ->
   Forall (fun r => coord_alt r = Some 100%float) (interpolate_altitude coords)).
Proof.
  unfold interpolate_altitude. split.
  - generalize 0 at 1. generalize coords at 1 3.
    induction coords0 as [|[[lon lat] alt] cs IH]; intros k; cbn [enumerate_from map];
      constructor; [|apply IH].
    cbn [fst snd]. rewrite interpolate_point_cases. unfold coord_alt. cbn [snd].
    intros ->. reflexivity.
  - intros Hall. pose proof (needs_altitude_not_positive coords Hall) as Hnone.
    assert (H : forall cs k,
              Forall (fun c => needs_altitude (coord_alt c) = true) cs ->
              Forall (fun r => coord_alt r = Some 100%float)
                (map (fun ip => interpolate_point coords (fst ip) (snd ip))
                   (enumerate_from k cs))).
    { induction cs as [|[[lon lat] alt] cs IH]; intros k Hcs; cbn [enumerate_from map];
        constructor.
      - cbn [fst snd]. rewrite interpolate_point_cases.
        apply Forall_inv in Hcs. unfold coord_alt in Hcs. cbn [snd] in Hcs.
        rewrite Hcs, !(search_altitude_none coords _ Hnone). reflexivity.
      - apply IH. apply Forall_inv_tail in Hcs. exact Hcs. }
    apply H, Hall.
Qed.

(** ** A file without marker *)

Lemma frame_no_marker (data : list byte) :
  forall pos, snd (frame pos data) = [] <-> Forall (fun b => is_marker b = false) data.
Proof.
  induction data as [|b rest IH]; intros pos; cbn [frame].
  - split; [constructor | reflexivity].
  - specialize (IH (pos + 1)). destruct (frame (pos + 1) rest) as [pre recs].
    cbn [snd] in IH. destruct (is_marker b) eqn:Eb; cbn [snd].
    + split; [discriminate|]. intros H. apply Forall_inv in H. congruence.
    + rewrite IH. split; [constructor; assumption | apply Forall_inv_tail].
Qed.

Section NoMarker.

Context {M : MathLib}.

(** X19.  The framer returns no record exactly when the file holds no
    [0x7E] byte (in particular for the empty file).  Parsing such a file
    leaves the session as created; the point export then writes a table
    without rows, and the trajectory export prints its diagnostic and writes
    nothing. *)
Theorem file_without_marker (data : list byte) (csv kml : string) :
  (find_records data = [] <-> Forall (fun b => is_marker b = false) data) /\
  (Forall (fun b => is_marker b = false) data ->
   parse_all data = init_session /\
   export_all_gps_csv (parse_all data) csv =
     [Print (MsgExportCsv csv); WriteCsv csv []; Print (MsgExported 0)] /\
   export_trajectory_kml (parse_all data) kml =
     [Print (MsgCreateKml kml); Print MsgNoCoords]).
Proof.
  split; [apply frame_no_marker|].
  intros H. apply (frame_no_marker data 0) in H.
  assert (Hp : parse_all data = init_session).
  { unfold parse_all. unfold find_records. rewrite H. reflexivity. }
  rewrite Hp. repeat split.
Qed.

End NoMarker.

(** ** Counters *)

Lemma le_uint_bound (bs : list byte) : 0 <= le_uint bs < 256 ^ Z.of_nat (length bs).
Proof.
  induction bs as [|b t IH]; [cbn; lia|].
  cbn [le_uint length]. rewrite Nat2Z.inj_succ, Z.pow_succ_r by lia.
  assert (Hb : 0 <= byte_val b < 256).
  { unfold byte_val. pose proof (Byte.to_N_bounded b). lia. }
  lia.
Qed.

Lemma unpack_I_bound (bs : list byte) (n : Z) :
  unpack_I bs = Ret n -> 0 <= n < 4294967296.
Proof.
  unfold unpack_I. destruct (length bs =? 4)%nat eqn:E; [|discriminate].
  apply Nat.eqb_eq in E. intros [= <-].
  pose proof (le_uint_bound bs) as H. rewrite E in H. exact H.
Qed.

(** X20.  The counter of every decoded sample is an unsigned 32-bit
    number: the absolute-GPS, relative-position and telemetry decoders only
    return counters in [0, 2^32). *)
Theorem decoded_counters_are_uint32 (record : list byte) :
  (forall gps, parse_known_gps_absolute record = Some gps ->
     exists n, counter gps = Some n /\ 0 <= n < 4294967296) /\
  (forall gps, parse_known_gps_relative record = Some gps ->
     exists n, counter gps = Some n /\ 0 <= n < 4294967296) /\
  (forall tel, parse_ks_telemetry record = Some tel ->
     0 <= tel_counter tel < 4294967296).
Proof.
  repeat split.
  - unfold parse_known_gps_absolute. intros gps.
    destruct (len record <? 36); [discriminate|].
    destruct (negb _); [discriminate|].
    destruct (unpack_I _) as [n|] eqn:En; cbn [bind catch]; [|discriminate].
    destruct (unpack_f (slice record 24 28)); cbn [bind catch]; [|discriminate].
    destruct (unpack_f (slice record 28 32)); cbn [bind catch]; [|discriminate].
    destruct (unpack_f (slice record 32 36)); cbn [bind catch]; [|discriminate].
    destruct (negb _); cbn [catch]; [discriminate|].
    intros [= <-]. exists n. split; [reflexivity | apply (unpack_I_bound _ _ En)].
  - unfold parse_known_gps_relative. intros gps.
    destruct (len record <? 40); [discriminate|].
    destruct (negb _); [discriminate|].
    destruct (unpack_I _) as [n|] eqn:En; cbn [bind catch]; [|discriminate].
    destruct (unpack_f (slice record 20 24)); cbn [bind catch]; [|discriminate].
    destruct (unpack_f (slice record 24 28)); cbn [bind catch]; [|discriminate].
    destruct (unpack_f (slice record 28 32)); cbn [bind catch]; [|discriminate].
    intros [= <-]. exists n. split; [reflexivity | apply (unpack_I_bound _ _ En)].
  - unfold parse_ks_telemetry in H.
    destruct (len record <? 77); [discriminate|].
    destruct (negb _); cbn [catch] in H; [discriminate|].
    destruct (unpack_I _) as [n|] eqn:En; cbn [bind catch] in H; [|discriminate].
    destruct (unpack_f (slice record 32 36)); cbn [bind catch] in H; [|discriminate].
    destruct (unpack_f (slice record 36 40)); cbn [bind catch] in H; [|discriminate].
    destruct (unpack_f (slice record 40 44)); cbn [bind catch] in H; [|discriminate].
    injection H as <-. cbn. apply (unpack_I_bound _ _ En).
  - unfold parse_ks_telemetry in H.
    destruct (len record <? 77); [discriminate|].
    destruct (negb _); cbn [catch] in H; [discriminate|].
    destruct (unpack_I _) as [n|] eqn:En; cbn [bind catch] in H; [|discriminate].
    destruct (unpack_f (slice record 32 36)); cbn [bind catch] in H; [|discriminate].
    destruct (unpack_f (slice record 36 40)); cbn [bind catch] in H; [|discriminate].
    destruct (unpack_f (slice record 40 44)); cbn [bind catch] in H; [|discriminate].
    injection H as <-. cbn. apply (unpack_I_bound _ _ En).
Qed.

(** ** The known and telemetry sequences as functions of the records *)

Section Sequences.

Context {M : MathLib}.

#[local] Open Scope Z_scope.

Lemma absolute_needs_tag (record : list byte) :
  byte_at_is record 1 x23 && byte_at_is record 2 x52 = false ->
  parse_known_gps_absolute record = None.
Proof.
  intros H. unfold parse_known_gps_absolute.
  destruct (len record <? 36); [reflexivity|]. rewrite H. reflexivity.
Qed.

Lemma relative_needs_tag (record : list byte) :
  byte_at_is record 1 x27 && byte_at_is record 2 x52 = false ->
  parse_known_gps_relative record = None.
Proof.
  intros H. unfold parse_known_gps_relative.
  destruct (len record <? 40); [reflexivity|]. rewrite H. reflexivity.
Qed.

Lemma tags_exclusive (record : list byte) :
  byte_at_is record 1 x23 && byte_at_is record 2 x52 = true ->
  byte_at_is record 1 x27 && byte_at_is record 2 x52 = false.
Proof.
  intros H. apply andb_prop in H. destruct H as (H & _).
  apply byte_at_is_spec in H. unfold byte_at_is. rewrite H. reflexivity.
Qed.

Lemma phase1_step_known (s : Session) (pos : Z) (record : list byte) :
  gps_known (phase1_step s (pos, record)) =
    gps_known s ++ option_list (parse_known_gps_absolute record)
                ++ option_list (parse_known_gps_relative record) /\
  telemetry (phase1_step s (pos, record)) = telemetry s.
Proof.
  unfold phase1_step. destruct (len record <? 4) eqn:Elen.
  { apply Z.ltb_lt in Elen. unfold parse_known_gps_absolute, parse_known_gps_relative.
    replace (len record <? 36) with true by (symmetry; apply Z.ltb_lt; lia).
    replace (len record <? 40) with true by (symmetry; apply Z.ltb_lt; lia).
    cbn. rewrite ?app_nil_r. auto. }
  destruct (byte_at_is record 1 x23 && byte_at_is record 2 x52) eqn:Ea.
  - rewrite (relative_needs_tag record (tags_exclusive record Ea)).
    destruct (parse_known_gps_absolute record) as [gps|] eqn:Ep; cbn [option_list].
    + destruct (known_absolute_fields _ _ Ep) as (_ & _ & lat & lon & -> & -> & _).
      cbn. rewrite ?app_nil_r. auto.
    + cbn. rewrite ?app_nil_r. auto.
  - rewrite (absolute_needs_tag record Ea).
    destruct (byte_at_is record 1 x27 && byte_at_is record 2 x52) eqn:Er.
    + destruct (parse_known_gps_relative record); cbn; rewrite ?app_nil_r; auto.
    + rewrite (relative_needs_tag record Er). cbn. rewrite ?app_nil_r. auto.
Qed.

Lemma ks_needs_tag (record : list byte) :
  bytes_eqb (slice record 1 3) KS = false -> parse_ks_telemetry record = None.
Proof.
  intros H. unfold parse_ks_telemetry.
  destruct (len record <? 77); [reflexivity|]. rewrite H. reflexivity.
Qed.

Lemma known_type_not_ks (record : list byte) :
  4 <= len record ->
  is_known_type (hex (slice record 1 (Z.min 4 (len record)))) = true ->
  bytes_eqb (slice record 1 3) KS = false.
Proof.
  intros Hlen. rewrite (Z.min_l 4 _ Hlen).
  destruct record as [|b0 [|b1 [|b2 [|b3 rest]]]];
    try (unfold len in Hlen; cbn [length] in Hlen; lia).
  change (slice (b0 :: b1 :: b2 :: b3 :: rest) 1 4) with [b1; b2; b3].
  rewrite is_known_type_hex, bytes_eqb_KS. intros H.
  destruct (Byte.eqb b1 x4b) eqn:E; [|reflexivity].
  apply byte_eqb_eq in E. subst b1. cbn in H. discriminate.
Qed.

Lemma phase2_step_telemetry (s : Session) (pos : Z) (record : list byte) :
  gps_known (phase2_step s (pos, record)) = gps_known s /\
  telemetry (phase2_step s (pos, record)) =
    telemetry s ++ option_list (parse_ks_telemetry record).
Proof.
  unfold phase2_step. destruct (len record <? 4) eqn:Elen.
  { apply Z.ltb_lt in Elen. unfold parse_ks_telemetry.
    replace (len record <? 77) with true by (symmetry; apply Z.ltb_lt; lia).
    cbn. rewrite ?app_nil_r. auto. }
  apply Z.ltb_ge in Elen.
  destruct (is_known_type _) eqn:Ek.
  { rewrite (ks_needs_tag record (known_type_not_ks record Elen Ek)).
    cbn. rewrite ?app_nil_r. auto. }
  destruct (bytes_eqb (slice record 1 3) KS) eqn:Eks.
  { destruct (parse_ks_telemetry record); cbn; rewrite ?app_nil_r; auto. }
  rewrite (ks_needs_tag record Eks). cbn [option_list]. rewrite app_nil_r.
  destruct (find_gps_in_record s record); [auto|].
  destruct (_ mod 100 =? 0); [|auto].
  match goal with |- context [update_region_center ?x] =>
    destruct (update_region_center_keeps x) as (-> & _ & _ & -> & _) end.
  auto.
Qed.

(** X21.  The known and the telemetry sequences do not depend on the
    heuristic state: after parsing, [gps_known] is, record by record in file
    order, what the absolute-GPS and relative-position decoders return, and
    [telemetry] is, record by record in file order, what the telemetry decoder
    returns. *)
Theorem known_and_telemetry_by_record (data : list byte) :
  gps_known (parse_all data) =
    flat_map (fun item => option_list (parse_known_gps_absolute (snd item))
                          ++ option_list (parse_known_gps_relative (snd item)))
      (find_records data) /\
  telemetry (parse_all data) =
    flat_map (fun item => option_list (parse_ks_telemetry (snd item)))
      (find_records data).
Proof.
  unfold parse_all, phase1, phase2.
  assert (H1 : forall records s,
            gps_known (fold_left phase1_step records s) =
              gps_known s ++
              flat_map (fun item => option_list (parse_known_gps_absolute (snd item))
                                    ++ option_list (parse_known_gps_relative (snd item)))
                records /\
            telemetry (fold_left phase1_step records s) = telemetry s).
  { induction records as [|[pos record] records IH]; intros s; cbn [fold_left flat_map].
    - rewrite app_nil_r. auto.
    - destruct (IH (phase1_step s (pos, record))) as (-> & ->).
      destruct (phase1_step_known s pos record) as (-> & ->).
      cbn [snd]. rewrite <- !app_assoc. auto. }
  assert (H2 : forall records s,
            gps_known (fold_left phase2_step records s) = gps_known s /\
            telemetry (fold_left phase2_step records s) =
              telemetry s ++
              flat_map (fun item => option_list (parse_ks_telemetry (snd item))) records).
  { induction records as [|[pos record] records IH]; intros s; cbn [fold_left flat_map].
    - rewrite app_nil_r. auto.
    - destruct (IH (phase2_step s (pos, record))) as (-> & ->).
      destruct (phase2_step_telemetry s pos record) as (-> & ->).
      cbn [snd]. rewrite <- !app_assoc. auto. }
  destruct (H2 (find_records data)
              (after_phase1 (fold_left phase1_step (find_records data) init_session)))
    as (-> & ->).
  assert (Ha : gps_known (after_phase1 (fold_left phase1_step (find_records data) init_session)) =
               gps_known (fold_left phase1_step (find_records data) init_session) /\
               telemetry (after_phase1 (fold_left phase1_step (find_records data) init_session)) =
               telemetry (fold_left phase1_step (find_records data) init_session)).
  { unfold after_phase1. destruct (0 <? _); [|auto].
    match goal with |- context [update_region_center ?x] =>
      destruct (update_region_center_keeps x) as (-> & _ & _ & -> & _) end.
    auto. }
  destruct Ha as (-> & ->).
  destruct (H1 (find_records data) init_session) as (-> & ->). cbn. auto.
Qed.

End Sequences.

(** ** Order of the samples relative to the file *)

Lemma subsequence_app_skip {A : Type} (l m : list A) (x : A) :
  subsequence l m -> subsequence l (m ++ [x]).
Proof.
  induction 1 as [|y l m _ IH|y l m _ IH]; cbn.
  - apply subsequence_skip, subsequence_nil.
  - apply subsequence_skip, IH.
  - apply subsequence_take, IH.
Qed.

Lemma subsequence_app_take {A : Type} (l m : list A) (x : A) :
  subsequence l m -> subsequence (l ++ [x]) (m ++ [x]).
Proof.
  induction 1 as [|y l m _ IH|y l m _ IH]; cbn.
  - apply subsequence_take, subsequence_nil.
  - apply subsequence_skip, IH.
  - apply subsequence_take, IH.
Qed.

(** Records that tile the file begin at strictly ascending positions. *)
Lemma tiled_ascending (records : list (Z * list byte)) :
  forall p,
    tiled p records -> Forall (fun item => well_framed (snd item)) records ->
    StronglySorted Z.lt (map fst records) /\ Forall (fun q => p <= q) (map fst records).
Proof.
  induction records as [|[q r] rest IH]; intros p Ht Hw; cbn [map fst].
  - split; constructor.
  - cbn [tiled] in Ht. destruct Ht as (-> & Ht).
    pose proof (Forall_inv Hw) as (body & Hr & _). cbn [snd] in Hr.
    destruct (IH _ Ht (Forall_inv_tail Hw)) as (Hs & Hge).
    assert (Hlen : 1 <= len r) by (subst r; unfold len; cbn [length]; lia).
    split.
    + constructor; [exact Hs|].
      eapply Forall_impl; [|exact Hge]. cbn. intros; lia.
    + constructor; [lia|].
      eapply Forall_impl; [|exact Hge]. cbn. intros; lia.
Qed.

Lemma find_records_ascending (data : list byte) :
  StronglySorted Z.lt (map fst (find_records data)).
Proof.
  unfold find_records.
  destruct (frame_shape data 0) as (_ & _ & Hw & Ht).
  exact (proj1 (tiled_ascending _ _ Ht Hw)).
Qed.

Section FileOrder.

Context {M : MathLib}.

#[local] Open Scope Z_scope.

Lemma filter_absolute_decoded (record : list byte) :
  filter is_absolute (option_list (parse_known_gps_absolute record)
                      ++ option_list (parse_known_gps_relative record)) =
  option_list (parse_known_gps_absolute record).
Proof.
  rewrite filter_app.
  destruct (parse_known_gps_absolute record) as [g|] eqn:Ea;
    destruct (parse_known_gps_relative record) as [r|] eqn:Er; cbn [option_list filter app].
  - destruct (known_absolute_fields _ _ Ea) as (Hs & _).
    destruct (known_relative_fields _ _ Er) as (Hr & _).
    unfold is_absolute. rewrite Hs, Hr. reflexivity.
  - destruct (known_absolute_fields _ _ Ea) as (Hs & _).
    unfold is_absolute. rewrite Hs. reflexivity.
  - destruct (known_relative_fields _ _ Er) as (Hr & _).
    unfold is_absolute. rewrite Hr. reflexivity.
  - reflexivity.
Qed.

(** The absolute-GPS samples of [gps_known], record by record. *)
Lemma absolute_samples_by_record (data : list byte) :
  filter is_absolute (gps_known (parse_all data)) =
  flat_map (fun item => option_list (parse_known_gps_absolute (snd item)))
    (find_records data).
Proof.
  unfold parse_all, phase1, phase2.
  assert (H1 : forall records s,
            filter is_absolute (gps_known (fold_left phase1_step records s)) =
            filter is_absolute (gps_known s) ++
            flat_map (fun item => option_list (parse_known_gps_absolute (snd item)))
              records).
  { induction records as [|[pos record] records IH]; intros s; cbn [fold_left flat_map].
    - rewrite app_nil_r. reflexivity.
    - rewrite IH. destruct (phase1_step_known s pos record) as (-> & _).
      rewrite filter_app, filter_absolute_decoded, <- app_assoc. reflexivity. }
  assert (H2 : forall records s,
            gps_known (fold_left phase2_step records s) = gps_known s).
  { induction records as [|[pos record] records IH]; intros s; cbn [fold_left].
    - reflexivity.
    - rewrite IH. apply phase2_step_telemetry. }
  rewrite H2.
  assert (Ha : gps_known (after_phase1 (fold_left phase1_step (find_records data) init_session)) =
               gps_known (fold_left phase1_step (find_records data) init_session)).
  { unfold after_phase1. destruct (0 <? _); [|reflexivity].
    apply update_region_center_keeps. }
  rewrite Ha, H1. reflexivity.
Qed.

(** The record positions of the discovered samples, in the order of the
    samples, are picked from the record positions of the file in the order of
    the file. *)
Lemma discovered_positions_in_order (data : list byte) :
  subsequence (map record_pos (gps_discovered (parse_all data)))
    (map (fun item => Some (fst item)) (find_records data)).
Proof.
  unfold parse_all.
  set (s0 := after_phase1 (phase1 (find_records data) init_session)).
  assert (H0 : gps_discovered s0 = []).
  { subst s0. unfold after_phase1.
    destruct (phase1_counts (find_records data) init_session) as (Hd & _).
    destruct (0 <? _); [|exact Hd].
    destruct (update_region_center_fields (phase1 (find_records data) init_session))
      as (_ & -> & _).
    exact Hd. }
  assert (H2 : forall records s seen,
            subsequence (map record_pos (gps_discovered s)) seen ->
            subsequence (map record_pos (gps_discovered (phase2 records s)))
              (seen ++ map (fun item => Some (fst item)) records)).
  { unfold phase2.
    induction records as [|[pos record] records IH]; intros s seen Hs;
      cbn [fold_left map].
    - rewrite app_nil_r. exact Hs.
    - replace (seen ++ Some (fst (pos, record)) :: map (fun item => Some (fst item)) records)
        with ((seen ++ [Some pos]) ++ map (fun item => Some (fst item)) records)
        by (rewrite <- app_assoc; reflexivity).
      apply IH.
      destruct (phase2_step_cases s pos record)
        as [((_ & -> & _) & _) | (best & rest & _ & _ & _ & -> & _)].
      + apply subsequence_app_skip, Hs.
      + rewrite map_app. cbn [map discovered_gps record_pos].
        apply subsequence_app_take, Hs. }
  apply (H2 (find_records data) s0 []). rewrite H0. constructor.
Qed.

(** X4.  After parsing, [gps_all] is the absolute-GPS samples of
    [gps_known] followed by the discovered samples.  Both parts are in file
    order: the absolute-GPS samples are, record by record in the order of the
    file, what the absolute-GPS decoder returns; and the record positions of
    the discovered samples are picked, in order, from the record positions of
    the file, which ascend strictly.  (So [gps_all] is not in file order when
    a discovered record precedes an absolute-GPS record.)  Every entry of
    [gps_all] becomes a trajectory point, and the horizontal positions of the
    raw trajectory are exactly the coordinate history. *)
Theorem parse_all_consistent (data : list byte) :
  gps_all (parse_all data) =
    filter is_absolute (gps_known (parse_all data)) ++ gps_discovered (parse_all data) /\
  filter is_absolute (gps_known (parse_all data)) =
    flat_map (fun item => option_list (parse_known_gps_absolute (snd item)))
      (find_records data) /\
  subsequence (map record_pos (gps_discovered (parse_all data)))
    (map (fun item => Some (fst item)) (find_records data)) /\
  StronglySorted Z.lt (map fst (find_records data)) /\
  length (trajectory_coords (gps_all (parse_all data))) = length (gps_all (parse_all data)) /\
  map coord_pair (trajectory_coords (gps_all (parse_all data))) =
    coord_history (parse_all data).
Proof.
  destruct (parse_all_session_consistent data) as (Hall & Hlen & Hhist).
  split; [exact Hall|].
  split; [apply absolute_samples_by_record|].
  split; [apply discovered_positions_in_order|].
  split; [apply find_records_ascending|].
  split; [exact Hlen | exact Hhist].
Qed.

End FileOrder.

(** ** Cells of the point table *)

Section PointTable.

Context {M : MathLib}.

Lemma known_absolute_row (record : list byte) (gps : Gps) :
  parse_known_gps_absolute record = Some gps -> known_row (csv_row gps).
Proof.
  unfold parse_known_gps_absolute.
  destruct (len record <? 36)%Z; [discriminate|].
  destruct (negb _); [discriminate|].
  destruct (unpack_I _) as [n|]; cbn [bind catch]; [|discriminate].
  destruct (unpack_f (slice record 24 28)) as [lat|]; cbn [bind catch]; [|discriminate].
  destruct (unpack_f (slice record 28 32)) as [lon|]; cbn [bind catch]; [|discriminate].
  destruct (unpack_f (slice record 32 36)) as [alt|]; cbn [bind catch]; [|discriminate].
  destruct (negb _); cbn [catch]; [discriminate|].
  intros [= <-]. unfold known_row. cbn. repeat split. exists n, lat, lon, alt. auto.
Qed.

Lemma discovered_row_of_candidate (s : Session) (record : list byte)
    (type_hex : string) (pos : Z) (c : Candidate) :
  In c (find_gps_in_record s record) ->
  discovered_row (csv_row (discovered_gps type_hex c pos)).
Proof.
  intros Hc. unfold discovered_row. cbn. repeat split.
  - exists (c_latitude c), (c_longitude c). auto.
  - destruct (c_altitude c) as [a|] eqn:Ea; [|left; reflexivity].
    right. exists a. split; [reflexivity|].
    unfold find_gps_in_record in Hc. destruct (len record <? 12)%Z; [destruct Hc|].
    apply in_scan in Hc. destruct Hc as (o & _ & Hc).
    apply candidate_at_iff in Hc. destruct Hc as (_ & _ & Halt).
    rewrite Halt in Ea. apply candidate_altitude_some in Ea. tauto.
Qed.

(** X22.  Every row of the point table is of one of two kinds: a
    known-type row, with a counter, a latitude, a longitude and an altitude
    number and 24 as its last column; or a discovered row, with an empty
    counter, a latitude and a longitude number, and an altitude that is
    either empty or a number strictly between -500 and 10000.  No row comes
    from a relative-position sample. *)
Theorem point_table_rows (data : list byte) (filename : string) (rows : list CsvRow) :
  In (WriteCsv filename rows) (export_all_gps_csv (parse_all data) filename) ->
  Forall (fun row => known_row row \/ discovered_row row) rows.
Proof.
  unfold export_all_gps_csv. intros [H | [H | [H | []]]]; try discriminate H.
  injection H as <-. apply Forall_map.
  apply gps_all_invariant.
  - intros record gps Hp. left. exact (known_absolute_row record gps Hp).
  - intros s record type_hex pos c Hc. right.
    exact (discovered_row_of_candidate s record type_hex pos c Hc).
Qed.

End PointTable.

(** The point export of a parsed log writes its table: the hypothesis of
    X22 holds. *)
Lemma point_table_rows_witness :
  let data := Reference.log_altitude_150_0 in
  exists rows,
    In (WriteCsv "gps_complete.csv" rows)
       (export_all_gps_csv (@parse_all Reference.exact_points_math data)
          "gps_complete.csv") /\
    Forall (fun row => known_row row \/ discovered_row row) rows.
Proof.
  cbv zeta.
  assert (H : exists rows,
            In (WriteCsv "gps_complete.csv" rows)
               (export_all_gps_csv
                  (@parse_all Reference.exact_points_math Reference.log_altitude_150_0)
                  "gps_complete.csv")).
  { eexists. right. left. reflexivity. }
  destruct H as [rows H]. exists rows. split; [exact H|].
  exact (@point_table_rows Reference.exact_points_math _ _ _ H).
Defined.
